(** * Template-method dispatch in Go: the two shape programs

    A shallow embedding of [go-oop-template-method.go] (the composite
    operation takes the interface value as an argument) and of the
    embedded-interface program (every instance stores an interface value
    that points back to itself), over a small model of the Go run time:
    typed heap cells, pointers that may be nil, interface values that carry
    a dynamic type, and a standard output that is only ever appended to. *)

From Stdlib Require Import String Ascii List Lia.
From stdpp Require Import base list strings.

(** ** The run-time model *)

Module Go.

Definition addr := nat.

(** A Go pointer: [nil], or the address of a heap cell. *)
Inductive ptr : Type :=
| nil
| ref (a : addr).

(** Why an execution stopped.  [NilDereference] is Go's
    "invalid memory address or nil pointer dereference", raised both when
    a nil pointer is dereferenced and when a method is called on a nil
    interface value.  [InvalidAddress] marks a pointer to a cell that was
    never allocated: Go cannot produce one, and it is kept apart so that
    a statement about panics is a statement about real ones. *)
Inductive fault : Type :=
| NilDereference
| InvalidAddress.

Inductive outcome (A : Type) : Type :=
| Returned (a : A)
| Panicked (f : fault).
Arguments Returned {A} a.
Arguments Panicked {A} f.

Record world (H : Type) : Type := World { heap : H; stdout : string }.
Arguments World {H} heap stdout.
Arguments heap {H} w.
Arguments stdout {H} w.

(** A statement or expression of the program, run in a world. *)
Definition exec (H A : Type) : Type := world H -> outcome A * world H.

Definition ret {H A} (a : A) : exec H A := fun w => (Returned a, w).

Definition bind {H A B} (m : exec H A) (k : A -> exec H B) : exec H B :=
  fun w =>
    match m w with
    | (Returned a, w') => k a w'
    | (Panicked f, w') => (Panicked f, w')
    end.

Definition panic {H A} (f : fault) : exec H A := fun w => (Panicked f, w).

(** [fmt.Print(s)] and [fmt.Println()]. *)
Definition Print {H} (s : string) : exec H unit :=
  fun w => (Returned tt, World (heap w) (stdout w +:+ s)).

Definition newline : string := String (ascii_of_nat 10) EmptyString.

Definition Println {H} : exec H unit := Print newline.

(** Heap cells of one struct type are kept in a list of their own; a
    struct type is known to the heap through a getter and a setter. *)
Section Cells.
Context {H T : Type}.
Variable cells : H -> list T.
Variable set_cells : list T -> H -> H.

(** [&T{...}]: a fresh cell at the end of the list. *)
Definition new (v : T) : exec H ptr :=
  fun w =>
    (Returned (ref (length (cells (heap w)))),
     World (set_cells (cells (heap w) ++ [v]) (heap w)) (stdout w)).

(** [*p] read. *)
Definition load (p : ptr) : exec H T :=
  fun w =>
    match p with
    | nil => (Panicked NilDereference, w)
    | ref a =>
        match cells (heap w) !! a with
        | Some v => (Returned v, w)
        | None => (Panicked InvalidAddress, w)
        end
    end.

(** [*p = v]. *)
Definition store (p : ptr) (v : T) : exec H unit :=
  fun w =>
    match p with
    | nil => (Panicked NilDereference, w)
    | ref a =>
        match cells (heap w) !! a with
        | Some _ =>
            (Returned tt,
             World (set_cells (<[a := v]> (cells (heap w))) (heap w))
                   (stdout w))
        | None => (Panicked InvalidAddress, w)
        end
    end.
End Cells.

(** [for _, s := range xs { body(s) }] *)
Fixpoint for_range {H A} (xs : list A) (body : A -> exec H unit)
  : exec H unit :=
  match xs with
  | [] => ret tt
  | x :: xs' => bind (body x) (fun _ => for_range xs' body)
  end.

(** [p] is the address of a cell of [l]: not nil, and allocated. *)
Definition allocated {T} (l : list T) (p : ptr) : bool :=
  match p with
  | nil => false
  | ref a => a <? length l
  end.

End Go.

Import Go.

Notation "x <- m ;; k" := (bind m (fun x => k))
  (at level 100, m at next level, right associativity, only parsing).
Notation "m ;; k" := (bind m (fun _ => k))
  (at level 100, right associativity, only parsing).

(** The four variants of the demo, and the line each one draws. *)
Inductive variant : Type :=
| Base
| ACircle
| ARedRectangle
| ABlueCircleWithText.

Definition line (v : variant) : string :=
  match v with
  | Base => "draw nothing-fill nothing"
  | ACircle => "Circle-fill nothing"
  | ARedRectangle => "Rectangle-Red"
  | ABlueCircleWithText => "Circle-Blue-TextAnnotation"
  end.

(** The token each variant prints for its boundary and for its fill, after
    overrides are resolved. *)
Definition boundary (v : variant) : string :=
  match v with
  | Base => "draw nothing"
  | ACircle => "Circle"
  | ARedRectangle => "Rectangle"
  | ABlueCircleWithText => "Circle"
  end.

Definition fill (v : variant) : string :=
  match v with
  | Base => "fill nothing"
  | ACircle => "fill nothing"
  | ARedRectangle => "Red"
  | ABlueCircleWithText => "Blue"
  end.

(** What a variant's own [draw] adds after the template. *)
Definition extension (v : variant) : string :=
  match v with
  | ABlueCircleWithText => "-TextAnnotation"
  | _ => ""
  end.

Definition expected_output : string :=
  line Base +:+ newline +:+ line ACircle +:+ newline +:+
  line ARedRectangle +:+ newline +:+ line ABlueCircleWithText +:+ newline.

(** ** The embedded-interface program *)

Module Embedded.

(** A value of interface type [Shape]: nil, or a dynamic type with the
    pointer stored under it.  Only pointer types to the four variants are
    ever stored in the program. *)
Inductive Shape : Type :=
| Shape_nil
| Shape_of_ShapeBase (p : ptr)
| Shape_of_Circle (p : ptr)
| Shape_of_RedRectangle (p : ptr)
| Shape_of_BlueCircleWithText (p : ptr).

(** [type ShapeAbstract struct { Shape }] *)
Record ShapeAbstract : Type := { ShapeAbstract_Shape : Shape }.
(** [type ShapeBase struct { *ShapeAbstract }] *)
Record ShapeBase : Type := { ShapeBase_ShapeAbstract : ptr }.
(** [type Circle struct { *ShapeBase }] *)
Record Circle : Type := { Circle_ShapeBase : ptr }.
(** [type RedRectangle struct { *ShapeBase }] *)
Record RedRectangle : Type := { RedRectangle_ShapeBase : ptr }.
(** [type BlueCircleWithText struct { *Circle }] *)
Record BlueCircleWithText : Type := { BlueCircleWithText_Circle : ptr }.

Record Heap : Type := {
  ShapeAbstracts : list ShapeAbstract;
  ShapeBases : list ShapeBase;
  Circles : list Circle;
  RedRectangles : list RedRectangle;
  BlueCircleWithTexts : list BlueCircleWithText
}.

Definition empty : Heap := Build_Heap [] [] [] [] [].

Definition set_ShapeAbstracts l h :=
  Build_Heap l (ShapeBases h) (Circles h) (RedRectangles h)
             (BlueCircleWithTexts h).
Definition set_ShapeBases l h :=
  Build_Heap (ShapeAbstracts h) l (Circles h) (RedRectangles h)
             (BlueCircleWithTexts h).
Definition set_Circles l h :=
  Build_Heap (ShapeAbstracts h) (ShapeBases h) l (RedRectangles h)
             (BlueCircleWithTexts h).
Definition set_RedRectangles l h :=
  Build_Heap (ShapeAbstracts h) (ShapeBases h) (Circles h) l
             (BlueCircleWithTexts h).
Definition set_BlueCircleWithTexts l h :=
  Build_Heap (ShapeAbstracts h) (ShapeBases h) (Circles h)
             (RedRectangles h) l.

Definition M := exec Heap.

(** *** Methods that print *)

(** [func (sb *ShapeBase) drawBoundary()] *)
Definition ShapeBase_drawBoundary (sb : ptr) : M unit :=
  Print "draw nothing".

(** [func (sb *ShapeBase) fillColor()] *)
Definition ShapeBase_fillColor (sb : ptr) : M unit :=
  Print "fill nothing".

(** [func (c *Circle) drawBoundary()] *)
Definition Circle_drawBoundary (c : ptr) : M unit :=
  Print "Circle".

(** Promoted through the embedded [*ShapeBase]: [c.fillColor()] is
    [c.ShapeBase.fillColor()], which reads the field of [*c]. *)
Definition Circle_fillColor (c : ptr) : M unit :=
  v <- load Circles c ;;
  ShapeBase_fillColor (Circle_ShapeBase v).

(** [func (rt *RedRectangle) drawBoundary()] *)
Definition RedRectangle_drawBoundary (rt : ptr) : M unit :=
  Print "Rectangle".

(** [func (rt *RedRectangle) fillColor()] *)
Definition RedRectangle_fillColor (rt : ptr) : M unit :=
  Print "Red".

(** Promoted through the embedded [*Circle]. *)
Definition BlueCircleWithText_drawBoundary (bct : ptr) : M unit :=
  v <- load BlueCircleWithTexts bct ;;
  Circle_drawBoundary (BlueCircleWithText_Circle v).

(** [func (bct *BlueCircleWithText) fillColor()] *)
Definition BlueCircleWithText_fillColor (bct : ptr) : M unit :=
  Print "Blue".

(** *** Calls through the interface

    A call on a value of interface type runs the method of the dynamic
    type; on the nil interface value it panics. *)

Definition Shape_drawBoundary (s : Shape) : M unit :=
  match s with
  | Shape_nil => panic NilDereference
  | Shape_of_ShapeBase p => ShapeBase_drawBoundary p
  | Shape_of_Circle p => Circle_drawBoundary p
  | Shape_of_RedRectangle p => RedRectangle_drawBoundary p
  | Shape_of_BlueCircleWithText p => BlueCircleWithText_drawBoundary p
  end.

Definition Shape_fillColor (s : Shape) : M unit :=
  match s with
  | Shape_nil => panic NilDereference
  | Shape_of_ShapeBase p => ShapeBase_fillColor p
  | Shape_of_Circle p => Circle_fillColor p
  | Shape_of_RedRectangle p => RedRectangle_fillColor p
  | Shape_of_BlueCircleWithText p => BlueCircleWithText_fillColor p
  end.

(** *** The template method and its promotions *)

(** [func (sa ShapeAbstract) draw()]: [sa.drawBoundary()] and
    [sa.fillColor()] are the methods of the embedded interface value. *)
Definition ShapeAbstract_draw (sa : ShapeAbstract) : M unit :=
  Shape_drawBoundary (ShapeAbstract_Shape sa) ;;
  Print "-" ;;
  Shape_fillColor (ShapeAbstract_Shape sa).

(** [sb.draw()] is [sb.ShapeAbstract.draw()] with the pointer
    dereferenced: the value receiver is a copy of the pointee. *)
Definition ShapeBase_draw (sb : ptr) : M unit :=
  v <- load ShapeBases sb ;;
  sa <- load ShapeAbstracts (ShapeBase_ShapeAbstract v) ;;
  ShapeAbstract_draw sa.

Definition Circle_draw (c : ptr) : M unit :=
  v <- load Circles c ;;
  ShapeBase_draw (Circle_ShapeBase v).

Definition RedRectangle_draw (rt : ptr) : M unit :=
  v <- load RedRectangles rt ;;
  ShapeBase_draw (RedRectangle_ShapeBase v).

(** [func (bct *BlueCircleWithText) draw()] *)
Definition BlueCircleWithText_draw (bct : ptr) : M unit :=
  v <- load BlueCircleWithTexts bct ;;
  Circle_draw (BlueCircleWithText_Circle v) ;;
  Print "-TextAnnotation".

Definition Shape_draw (s : Shape) : M unit :=
  match s with
  | Shape_nil => panic NilDereference
  | Shape_of_ShapeBase p => ShapeBase_draw p
  | Shape_of_Circle p => Circle_draw p
  | Shape_of_RedRectangle p => RedRectangle_draw p
  | Shape_of_BlueCircleWithText p => BlueCircleWithText_draw p
  end.

(** *** Assignment to the promoted [Shape] field *)

(** [sa.Shape = s] on a [*ShapeAbstract]. *)
Definition ShapeAbstract_set_Shape (sa : ptr) (s : Shape) : M unit :=
  store ShapeAbstracts set_ShapeAbstracts sa {| ShapeAbstract_Shape := s |}.

(** [sb.Shape = s] is [sb.ShapeAbstract.Shape = s]. *)
Definition ShapeBase_set_Shape (sb : ptr) (s : Shape) : M unit :=
  v <- load ShapeBases sb ;;
  ShapeAbstract_set_Shape (ShapeBase_ShapeAbstract v) s.

Definition Circle_set_Shape (c : ptr) (s : Shape) : M unit :=
  v <- load Circles c ;;
  ShapeBase_set_Shape (Circle_ShapeBase v) s.

Definition RedRectangle_set_Shape (rr : ptr) (s : Shape) : M unit :=
  v <- load RedRectangles rr ;;
  ShapeBase_set_Shape (RedRectangle_ShapeBase v) s.

Definition BlueCircleWithText_set_Shape (bct : ptr) (s : Shape) : M unit :=
  v <- load BlueCircleWithTexts bct ;;
  Circle_set_Shape (BlueCircleWithText_Circle v) s.

(** *** Constructors *)

Definition NewShapeBase : M ptr :=
  sa <- new ShapeAbstracts set_ShapeAbstracts
            {| ShapeAbstract_Shape := Shape_nil |} ;;
  sb <- new ShapeBases set_ShapeBases {| ShapeBase_ShapeAbstract := sa |} ;;
  ShapeBase_set_Shape sb (Shape_of_ShapeBase sb) ;;
  ret sb.

Definition NewCircle : M ptr :=
  sb <- NewShapeBase ;;
  c <- new Circles set_Circles {| Circle_ShapeBase := sb |} ;;
  Circle_set_Shape c (Shape_of_Circle c) ;;
  ret c.

Definition NewRedRectangle : M ptr :=
  sb <- NewShapeBase ;;
  rr <- new RedRectangles set_RedRectangles
            {| RedRectangle_ShapeBase := sb |} ;;
  RedRectangle_set_Shape rr (Shape_of_RedRectangle rr) ;;
  ret rr.

Definition NewBlueCircleWithText : M ptr :=
  c <- NewCircle ;;
  bct <- new BlueCircleWithTexts set_BlueCircleWithTexts
             {| BlueCircleWithText_Circle := c |} ;;
  BlueCircleWithText_set_Shape bct (Shape_of_BlueCircleWithText bct) ;;
  ret bct.

(** *** The driver *)

Definition main : M unit :=
  s0 <- NewShapeBase ;;
  s1 <- NewCircle ;;
  s2 <- NewRedRectangle ;;
  s3 <- NewBlueCircleWithText ;;
  for_range
    [Shape_of_ShapeBase s0; Shape_of_Circle s1; Shape_of_RedRectangle s2;
     Shape_of_BlueCircleWithText s3]
    (fun s => Shape_draw s ;; Println).

(** *** Expressions used to state properties *)

(** [x.Shape], the read of the promoted field. *)
Definition ShapeBase_Shape (sb : ptr) : M Shape :=
  v <- load ShapeBases sb ;;
  sa <- load ShapeAbstracts (ShapeBase_ShapeAbstract v) ;;
  ret (ShapeAbstract_Shape sa).

Definition Circle_Shape (c : ptr) : M Shape :=
  v <- load Circles c ;;
  ShapeBase_Shape (Circle_ShapeBase v).

Definition RedRectangle_Shape (rr : ptr) : M Shape :=
  v <- load RedRectangles rr ;;
  ShapeBase_Shape (RedRectangle_ShapeBase v).

Definition BlueCircleWithText_Shape (bct : ptr) : M Shape :=
  v <- load BlueCircleWithTexts bct ;;
  Circle_Shape (BlueCircleWithText_Circle v).

(** The [Shape] field of the instance held by an interface value. *)
Definition self_reference (x : Shape) : M Shape :=
  match x with
  | Shape_nil => panic NilDereference
  | Shape_of_ShapeBase p => ShapeBase_Shape p
  | Shape_of_Circle p => Circle_Shape p
  | Shape_of_RedRectangle p => RedRectangle_Shape p
  | Shape_of_BlueCircleWithText p => BlueCircleWithText_Shape p
  end.

(** The constructor of a variant, the conversion of its result to the
    interface type (as in the slice literal of [main]), and the call of
    [draw] on the concrete pointer type. *)
Definition constructor (v : variant) : M ptr :=
  match v with
  | Base => NewShapeBase
  | ACircle => NewCircle
  | ARedRectangle => NewRedRectangle
  | ABlueCircleWithText => NewBlueCircleWithText
  end.

Definition as_Shape (v : variant) (p : ptr) : Shape :=
  match v with
  | Base => Shape_of_ShapeBase p
  | ACircle => Shape_of_Circle p
  | ARedRectangle => Shape_of_RedRectangle p
  | ABlueCircleWithText => Shape_of_BlueCircleWithText p
  end.

Definition static_draw (v : variant) (p : ptr) : M unit :=
  match v with
  | Base => ShapeBase_draw p
  | ACircle => Circle_draw p
  | ARedRectangle => RedRectangle_draw p
  | ABlueCircleWithText => BlueCircleWithText_draw p
  end.

(** [s.draw()] of the loop of [main], for [s] holding the instance. *)
Definition interface_draw (v : variant) (p : ptr) : M unit :=
  Shape_draw (as_Shape v p).

(** The embedded [*Circle] of a [BlueCircleWithText], and the embedded
    [*ShapeBase] of a [Circle] and of a [RedRectangle]. *)
Definition embedded_Circle (bct : ptr) : M ptr :=
  v <- load BlueCircleWithTexts bct ;;
  ret (BlueCircleWithText_Circle v).

Definition embedded_ShapeBase (c : ptr) : M ptr :=
  v <- load Circles c ;;
  ret (Circle_ShapeBase v).

Definition embedded_ShapeBase_of_RedRectangle (rr : ptr) : M ptr :=
  v <- load RedRectangles rr ;;
  ret (RedRectangle_ShapeBase v).

(** The template [draw] of [ShapeAbstract] as a variant reaches it: by
    promotion, and for [BlueCircleWithText], whose own [draw] shadows the
    promoted one, by the call [bct.Circle.draw()]. *)
Definition template_draw (v : variant) (p : ptr) : M unit :=
  match v with
  | Base => ShapeBase_draw p
  | ACircle => Circle_draw p
  | ARedRectangle => RedRectangle_draw p
  | ABlueCircleWithText => c <- embedded_Circle p ;; Circle_draw c
  end.

(** *** Heaps in which no call can go wrong *)

(** The interface value holds the address of a cell of its dynamic
    type. *)
Definition Shape_allocated (h : Heap) (s : Shape) : bool :=
  match s with
  | Shape_nil => false
  | Shape_of_ShapeBase p => allocated (ShapeBases h) p
  | Shape_of_Circle p => allocated (Circles h) p
  | Shape_of_RedRectangle p => allocated (RedRectangles h) p
  | Shape_of_BlueCircleWithText p => allocated (BlueCircleWithTexts h) p
  end.

(** Every embedded pointer is the address of a cell, and every [Shape]
    field holds an instance. *)
Definition wired (h : Heap) : bool :=
  forallb (fun sa => Shape_allocated h (ShapeAbstract_Shape sa))
          (ShapeAbstracts h) &&
  forallb (fun sb => allocated (ShapeAbstracts h) (ShapeBase_ShapeAbstract sb))
          (ShapeBases h) &&
  forallb (fun c => allocated (ShapeBases h) (Circle_ShapeBase c))
          (Circles h) &&
  forallb (fun rr => allocated (ShapeBases h) (RedRectangle_ShapeBase rr))
          (RedRectangles h) &&
  forallb (fun bct => allocated (Circles h) (BlueCircleWithText_Circle bct))
          (BlueCircleWithTexts h).

(** [h'] has every cell of [h], unchanged, and maybe more. *)
Definition extends (h h' : Heap) : Prop :=
  ShapeAbstracts h `prefix_of` ShapeAbstracts h' /\
  ShapeBases h `prefix_of` ShapeBases h' /\
  Circles h `prefix_of` Circles h' /\
  RedRectangles h `prefix_of` RedRectangles h' /\
  BlueCircleWithTexts h `prefix_of` BlueCircleWithTexts h'.

End Embedded.

(** ** The explicit-argument program ([go-oop-template-method.go]) *)

Module Explicit.

Inductive Shape : Type :=
| Shape_nil
| Shape_of_ShapeBase (p : ptr)
| Shape_of_Circle (p : ptr)
| Shape_of_RedRectangle (p : ptr)
| Shape_of_BlueCircleWithText (p : ptr).

(** [type ShapeBase struct{}] *)
Inductive ShapeBase : Type := Build_ShapeBase.
(** [type Circle struct { *ShapeBase }] *)
Record Circle : Type := { Circle_ShapeBase : ptr }.
(** [type RedRectangle struct { *ShapeBase }] *)
Record RedRectangle : Type := { RedRectangle_ShapeBase : ptr }.
(** [type BlueCircleWithText struct { *Circle }] *)
Record BlueCircleWithText : Type := { BlueCircleWithText_Circle : ptr }.

Record Heap : Type := {
  ShapeBases : list ShapeBase;
  Circles : list Circle;
  RedRectangles : list RedRectangle;
  BlueCircleWithTexts : list BlueCircleWithText
}.

Definition empty : Heap := Build_Heap [] [] [] [].

Definition set_ShapeBases l h :=
  Build_Heap l (Circles h) (RedRectangles h) (BlueCircleWithTexts h).
Definition set_Circles l h :=
  Build_Heap (ShapeBases h) l (RedRectangles h) (BlueCircleWithTexts h).
Definition set_RedRectangles l h :=
  Build_Heap (ShapeBases h) (Circles h) l (BlueCircleWithTexts h).
Definition set_BlueCircleWithTexts l h :=
  Build_Heap (ShapeBases h) (Circles h) (RedRectangles h) l.

Definition M := exec Heap.

(** *** Methods that print *)

(** [func (sb *ShapeBase) drawBoundary()] *)
Definition ShapeBase_drawBoundary (sb : ptr) : M unit :=
  Print "draw nothing".

(** [func (sb *ShapeBase) fillColor()] *)
Definition ShapeBase_fillColor (sb : ptr) : M unit :=
  Print "fill nothing".

(** [func (c *Circle) drawBoundary()] *)
Definition Circle_drawBoundary (c : ptr) : M unit :=
  Print "Circle".

(** Promoted through the embedded [*ShapeBase]. *)
Definition Circle_fillColor (c : ptr) : M unit :=
  v <- load Circles c ;;
  ShapeBase_fillColor (Circle_ShapeBase v).

(** [func (rt *RedRectangle) drawBoundary()] *)
Definition RedRectangle_drawBoundary (rt : ptr) : M unit :=
  Print "Rectangle".

(** [func (rt *RedRectangle) fillColor()] *)
Definition RedRectangle_fillColor (rt : ptr) : M unit :=
  Print "Red".

(** Promoted through the embedded [*Circle]. *)
Definition BlueCircleWithText_drawBoundary (bct : ptr) : M unit :=
  v <- load BlueCircleWithTexts bct ;;
  Circle_drawBoundary (BlueCircleWithText_Circle v).

(** [func (bct *BlueCircleWithText) fillColor()] *)
Definition BlueCircleWithText_fillColor (bct : ptr) : M unit :=
  Print "Blue".

(** *** Calls through the interface

    A call on a value of interface type runs the method of the dynamic
    type; on the nil interface value it panics. *)

Definition Shape_drawBoundary (s : Shape) : M unit :=
  match s with
  | Shape_nil => panic NilDereference
  | Shape_of_ShapeBase p => ShapeBase_drawBoundary p
  | Shape_of_Circle p => Circle_drawBoundary p
  | Shape_of_RedRectangle p => RedRectangle_drawBoundary p
  | Shape_of_BlueCircleWithText p => BlueCircleWithText_drawBoundary p
  end.

Definition Shape_fillColor (s : Shape) : M unit :=
  match s with
  | Shape_nil => panic NilDereference
  | Shape_of_ShapeBase p => ShapeBase_fillColor p
  | Shape_of_Circle p => Circle_fillColor p
  | Shape_of_RedRectangle p => RedRectangle_fillColor p
  | Shape_of_BlueCircleWithText p => BlueCircleWithText_fillColor p
  end.

(** *** The template method and its promotions *)

(** [func (_ *ShapeBase) draw(sb Shape)]: the receiver is not named and
    not read. *)
Definition ShapeBase_draw (receiver : ptr) (sb : Shape) : M unit :=
  Shape_drawBoundary sb ;;
  Print "-" ;;
  Shape_fillColor sb.

(** [c.draw(s)] is [c.ShapeBase.draw(s)]. *)
Definition Circle_draw (c : ptr) (s : Shape) : M unit :=
  v <- load Circles c ;;
  ShapeBase_draw (Circle_ShapeBase v) s.

Definition RedRectangle_draw (rt : ptr) (s : Shape) : M unit :=
  v <- load RedRectangles rt ;;
  ShapeBase_draw (RedRectangle_ShapeBase v) s.

(** [func (bct *BlueCircleWithText) draw(s Shape)] *)
Definition BlueCircleWithText_draw (bct : ptr) (s : Shape) : M unit :=
  v <- load BlueCircleWithTexts bct ;;
  Circle_draw (BlueCircleWithText_Circle v) s ;;
  Print "-TextAnnotation".

Definition Shape_draw (s : Shape) (arg : Shape) : M unit :=
  match s with
  | Shape_nil => panic NilDereference
  | Shape_of_ShapeBase p => ShapeBase_draw p arg
  | Shape_of_Circle p => Circle_draw p arg
  | Shape_of_RedRectangle p => RedRectangle_draw p arg
  | Shape_of_BlueCircleWithText p => BlueCircleWithText_draw p arg
  end.

(** *** Constructors *)

(** [&ShapeBase{}], written out in [main]. *)
Definition new_ShapeBase : M ptr :=
  new ShapeBases set_ShapeBases Build_ShapeBase.

(** [return &Circle{&ShapeBase{}}] *)
Definition NewCircle : M ptr :=
  sb <- new_ShapeBase ;;
  new Circles set_Circles {| Circle_ShapeBase := sb |}.

(** [return &RedRectangle{&ShapeBase{}}] *)
Definition NewRedRectangle : M ptr :=
  sb <- new_ShapeBase ;;
  new RedRectangles set_RedRectangles {| RedRectangle_ShapeBase := sb |}.

(** [return &BlueCircleWithText{&Circle{}}]: the inner composite literal
    names no field, so the embedded pointer of the [Circle] is nil. *)
Definition NewBlueCircleWithText : M ptr :=
  c <- new Circles set_Circles {| Circle_ShapeBase := nil |} ;;
  new BlueCircleWithTexts set_BlueCircleWithTexts
      {| BlueCircleWithText_Circle := c |}.

(** *** The driver *)

Definition main : M unit :=
  s0 <- new_ShapeBase ;;
  s1 <- NewCircle ;;
  s2 <- NewRedRectangle ;;
  s3 <- NewBlueCircleWithText ;;
  for_range
    [Shape_of_ShapeBase s0; Shape_of_Circle s1; Shape_of_RedRectangle s2;
     Shape_of_BlueCircleWithText s3]
    (fun s => Shape_draw s s ;; Println).

(** *** Expressions used to state properties *)

Definition constructor (v : variant) : M ptr :=
  match v with
  | Base => new_ShapeBase
  | ACircle => NewCircle
  | ARedRectangle => NewRedRectangle
  | ABlueCircleWithText => NewBlueCircleWithText
  end.

Definition as_Shape (v : variant) (p : ptr) : Shape :=
  match v with
  | Base => Shape_of_ShapeBase p
  | ACircle => Shape_of_Circle p
  | ARedRectangle => Shape_of_RedRectangle p
  | ABlueCircleWithText => Shape_of_BlueCircleWithText p
  end.

(** [x.draw(x)] on the concrete pointer type. *)
Definition static_draw (v : variant) (p : ptr) : M unit :=
  match v with
  | Base => ShapeBase_draw p (as_Shape v p)
  | ACircle => Circle_draw p (as_Shape v p)
  | ARedRectangle => RedRectangle_draw p (as_Shape v p)
  | ABlueCircleWithText => BlueCircleWithText_draw p (as_Shape v p)
  end.

(** [s.draw(s)] of the loop of [main], for [s] holding the instance. *)
Definition interface_draw (v : variant) (p : ptr) : M unit :=
  Shape_draw (as_Shape v p) (as_Shape v p).

(** The embedded [*Circle] of a [BlueCircleWithText], and the embedded
    [*ShapeBase] of a [Circle]. *)
Definition embedded_Circle (bct : ptr) : M ptr :=
  v <- load BlueCircleWithTexts bct ;;
  ret (BlueCircleWithText_Circle v).

Definition embedded_ShapeBase (c : ptr) : M ptr :=
  v <- load Circles c ;;
  ret (Circle_ShapeBase v).

(** The template [draw] of [ShapeBase] as a variant reaches it, called
    with the instance as argument: by promotion, and for
    [BlueCircleWithText] by the call [bct.Circle.draw(s)]. *)
Definition template_draw (v : variant) (p : ptr) : M unit :=
  match v with
  | Base => ShapeBase_draw p (as_Shape v p)
  | ACircle => Circle_draw p (as_Shape v p)
  | ARedRectangle => RedRectangle_draw p (as_Shape v p)
  | ABlueCircleWithText =>
      c <- embedded_Circle p ;; Circle_draw c (as_Shape v p)
  end.

Definition embedded_ShapeBase_of_RedRectangle (rr : ptr) : M ptr :=
  v <- load RedRectangles rr ;;
  ret (RedRectangle_ShapeBase v).

(** *** Heaps in which no call can go wrong *)

Definition Shape_allocated (h : Heap) (s : Shape) : bool :=
  match s with
  | Shape_nil => false
  | Shape_of_ShapeBase p => allocated (ShapeBases h) p
  | Shape_of_Circle p => allocated (Circles h) p
  | Shape_of_RedRectangle p => allocated (RedRectangles h) p
  | Shape_of_BlueCircleWithText p => allocated (BlueCircleWithTexts h) p
  end.

(** Every [BlueCircleWithText] embeds the address of a [Circle].  Nothing
    is asked of the embedded [*ShapeBase] pointers. *)
Definition linked (h : Heap) : bool :=
  forallb (fun bct => allocated (Circles h) (BlueCircleWithText_Circle bct))
          (BlueCircleWithTexts h).

(** [h'] has every cell of [h], unchanged, and maybe more. *)
Definition extends (h h' : Heap) : Prop :=
  ShapeBases h `prefix_of` ShapeBases h' /\
  Circles h `prefix_of` Circles h' /\
  RedRectangles h `prefix_of` RedRectangles h' /\
  BlueCircleWithTexts h `prefix_of` BlueCircleWithTexts h'.

End Explicit.

(** ** The class hierarchy of [TemplateMethods.java] *)

Module Java.

(** The classes.  No class declares a field, so an object is known by its
    class, and the heap holds nothing.  No reference of the program is
    ever null: [this] never is, and the array of [main] holds the results
    of [new]. *)
Inductive class : Type :=
| Shape
| Circle
| RedRectangle
| BlueCircleWithText.

Definition M := exec unit.

(** *** Method bodies, as declared *)

(** [class Shape { void drawBoundary() }] *)
Definition Shape_drawBoundary (this : class) : M unit :=
  Print "draw nothing".

(** [class Shape { void fillColor() }] *)
Definition Shape_fillColor (this : class) : M unit :=
  Print "fill nothing".

(** [class Circle extends Shape { void drawBoundary() }] *)
Definition Circle_drawBoundary (this : class) : M unit :=
  Print "Circle".

(** [class RedRectangle extends Shape { void fillColor() }] *)
Definition RedRectangle_fillColor (this : class) : M unit :=
  Print "Red".

(** [class RedRectangle extends Shape { void drawBoundary() }] *)
Definition RedRectangle_drawBoundary (this : class) : M unit :=
  Print "Rectangle".

(** [class BlueCircleWithText extends Circle { void fillColor() }] *)
Definition BlueCircleWithText_fillColor (this : class) : M unit :=
  Print "Blue".

(** *** Virtual calls

    The method table of each class: its own declaration, or else the one
    it inherits along [extends]. *)

Definition drawBoundary (this : class) : M unit :=
  match this with
  | Shape => Shape_drawBoundary this
  | Circle => Circle_drawBoundary this
  | RedRectangle => RedRectangle_drawBoundary this
  | BlueCircleWithText => Circle_drawBoundary this
  end.

Definition fillColor (this : class) : M unit :=
  match this with
  | Shape => Shape_fillColor this
  | Circle => Shape_fillColor this
  | RedRectangle => RedRectangle_fillColor this
  | BlueCircleWithText => BlueCircleWithText_fillColor this
  end.

(** [class Shape { void draw() }]: the two calls are virtual calls on
    [this]. *)
Definition Shape_draw (this : class) : M unit :=
  drawBoundary this ;;
  Print "-" ;;
  fillColor this.

(** [class BlueCircleWithText { void draw() }]: [super.draw()] is the
    [draw] that [Circle] inherits from [Shape], run on the same [this]. *)
Definition BlueCircleWithText_draw (this : class) : M unit :=
  Shape_draw this ;;
  Print "-TextAnnotation".

Definition draw (this : class) : M unit :=
  match this with
  | Shape => Shape_draw this
  | Circle => Shape_draw this
  | RedRectangle => Shape_draw this
  | BlueCircleWithText => BlueCircleWithText_draw this
  end.

(** *** The driver

    [out.println()] writes the line separator of the platform, which is
    taken as a parameter. *)
Definition main (lineSeparator : string) : M unit :=
  for_range [Shape; Circle; RedRectangle; BlueCircleWithText]
    (fun s => draw s ;; Print lineSeparator).

(** [new C()] for the class that stands for a variant. *)
Definition new (v : variant) : class :=
  match v with
  | Base => Shape
  | ACircle => Circle
  | ARedRectangle => RedRectangle
  | ABlueCircleWithText => BlueCircleWithText
  end.

End Java.

(** ** Observations *)

Section Observations.
Context {H : Type}.

(** [m], run in [w], returns, leaves the heap as it was and appends
    exactly [t] to the standard output. *)
Definition emits (m : exec H unit) (w : world H) (t : string) : Prop :=
  m w = (Returned tt, World (heap w) (stdout w +:+ t)).

(** [m], run in [w], panics on a nil dereference before it has changed
    anything. *)
Definition faults (m : exec H unit) (w : world H) : Prop :=
  m w = (Panicked NilDereference, w).

(** [m], run in [w], returns [a] and leaves [w'], having printed
    nothing. *)
Definition yields {A} (m : exec H A) (w : world H) (a : A) (w' : world H)
  : Prop :=
  m w = (Returned a, w') /\ stdout w' = stdout w.

(** [m] reads the heap and appends to the standard output, and does
    nothing else: what it returns and what it appends are fixed by the
    heap, which it leaves as it was, also when it panics. *)
Definition appends {A} (m : exec H A) : Prop :=
  forall h, exists r t,
    forall out, m (World h out) = (r, World h (out +:+ t)).

(** What a finished run has written. *)
Definition output {A} (m : exec H A) (w : world H) : option string :=
  match m w with
  | (Returned _, w') => Some (stdout w')
  | (Panicked _, _) => None
  end.

(** [m] returns in every world of heap [h], leaving the heap as it was. *)
Definition runs (m : exec H unit) (h : H) : Prop :=
  exists t, forall out, m (World h out) = (Returned tt, World h (out +:+ t)).

(** What [m] returns and writes in the worlds of heap [h], it returns and
    writes in the worlds of heap [h']. *)
Definition carries {A} (h h' : H) (m : exec H A) : Prop :=
  forall r t,
    (forall out, m (World h out) = (Returned r, World h (out +:+ t))) ->
    forall out, m (World h' out) = (Returned r, World h' (out +:+ t)).

(** [m] only appends, and what it does in [h] it does in [h']. *)
Definition steady {A} (h h' : H) (m : exec H A) : Prop :=
  appends m /\ carries h h' m.
End Observations.

(** [a] occurs in [s], and [b] occurs after that occurrence. *)
Definition occurs_before (a b s : string) : Prop :=
  exists pre mid post, s = pre +:+ a +:+ mid +:+ b +:+ post.

(** ** Facts about the run-time model *)

Section RunTime.
Context {H : Type}.

Lemma append_assoc (a b c : string) : (a +:+ b) +:+ c = a +:+ (b +:+ c).
Proof.
  induction a as [|x a IH]; [reflexivity|].
  change (String x ((a +:+ b) +:+ c) = String x (a +:+ (b +:+ c))).
  now rewrite IH.
Qed.

Lemma append_nil_r (a : string) : a +:+ "" = a.
Proof.
  induction a as [|x a IH]; [reflexivity|].
  change (String x (a +:+ "") = String x a). now rewrite IH.
Qed.

Lemma lookup_snoc {T} (l : list T) (x : T) : (l ++ [x]) !! length l = Some x.
Proof. induction l as [|y l IH]; simpl; [reflexivity | exact IH]. Qed.

Lemma lookup_snoc_S {T} (l : list T) (x y : T) :
  (l ++ [x; y]) !! S (length l) = Some y.
Proof. induction l as [|z l IH]; simpl; [reflexivity | exact IH]. Qed.

Lemma insert_snoc {T} (l : list T) (x y : T) :
  <[length l := y]> (l ++ [x]) = l ++ [y].
Proof. induction l as [|z l IH]; simpl; [reflexivity | now rewrite IH]. Qed.

Lemma world_eta (w : world H) : World (heap w) (stdout w) = w.
Proof. now destruct w. Qed.

Lemma emits_Print (s : string) (w : world H) : emits (Print s) w s.
Proof. reflexivity. Qed.

(** Sequencing two emitting statements emits the concatenation. *)
Lemma emits_seq (m k : exec H unit) (w : world H) (t u : string) :
  emits m w t ->
  emits k (World (heap w) (stdout w +:+ t)) u ->
  emits (m ;; k) w (t +:+ u).
Proof.
  unfold emits, bind. intros -> Hk. rewrite Hk. simpl.
  now rewrite append_assoc.
Qed.

Lemma appends_ret {A} (a : A) : appends (ret (H := H) a).
Proof. intros h. exists (Returned a), "". intros out.
       unfold ret. now rewrite append_nil_r. Qed.

Lemma appends_panic {A} (f : fault) : appends (panic (H := H) (A := A) f).
Proof. intros h. exists (Panicked f), "". intros out.
       unfold panic. now rewrite append_nil_r. Qed.

Lemma appends_Print (s : string) : appends (Print (H := H) s).
Proof. intros h. exists (Returned tt), s. reflexivity. Qed.

Lemma appends_load {T} (cells : H -> list T) (p : ptr) :
  appends (load cells p).
Proof.
  intros h. unfold load. destruct p as [|a]; simpl.
  - exists (Panicked NilDereference), "". intros out.
    now rewrite append_nil_r.
  - destruct (cells h !! a) as [v|].
    + exists (Returned v), "". intros out. now rewrite append_nil_r.
    + exists (Panicked InvalidAddress), "". intros out.
      now rewrite append_nil_r.
Qed.

Lemma appends_bind {A B} (m : exec H A) (k : A -> exec H B) :
  appends m -> (forall a, appends (k a)) -> appends (bind m k).
Proof.
  intros Hm Hk h. destruct (Hm h) as (r & t & Hr).
  destruct r as [a|f].
  - destruct (Hk a h) as (r' & t' & Hr').
    exists r', (t +:+ t'). intros out. unfold bind.
    rewrite Hr, Hr'. now rewrite append_assoc.
  - exists (Panicked f), t. intros out. unfold bind. now rewrite Hr.
Qed.

(** A statement that only appends keeps the heap, whatever it does. *)
Lemma appends_heap {A} (m : exec H A) (w : world H) :
  appends m -> heap (snd (m w)) = heap w.
Proof.
  intros Hm. destruct (Hm (heap w)) as (r & t & Hr).
  specialize (Hr (stdout w)). rewrite world_eta in Hr. now rewrite Hr.
Qed.

(** What it emits does not depend on what was written before. *)
Lemma emits_frame (m : exec H unit) (w : world H) (t : string) :
  appends m -> emits m w t ->
  forall out, emits m (World (heap w) out) t.
Proof.
  intros Hm Hw out. destruct (Hm (heap w)) as (r & u & Hr).
  unfold emits in *. pose proof (Hr (stdout w)) as H0.
  rewrite world_eta in H0. rewrite H0 in Hw.
  injection Hw as -> Hu. apply (inj (String.app (stdout w))) in Hu.
  subst u. simpl. apply Hr.
Qed.
End RunTime.

Ltac appends_tac :=
  repeat first
    [ apply appends_Print | apply appends_ret | apply appends_panic
    | apply appends_load | apply appends_bind | intro ].

(** Concatenation of string literals, which [simpl] leaves alone. *)
Ltac glue :=
  repeat match goal with
         | |- context [String.append (String ?a ?s) ?t] =>
             change (String.append (String a s) t)
               with (String a (String.append s t))
         | |- context [String.append EmptyString ?t] =>
             change (String.append EmptyString t) with t
         end.

Ltac run :=
  repeat first
    [ progress simpl
    | rewrite lookup_snoc
    | rewrite insert_snoc
    | rewrite lookup_snoc_S
    | rewrite append_assoc
    | progress glue ].


(** ** Facts about the embedded-interface program *)

Module EmbeddedFacts.
Import Embedded.

Ltac expand :=
  cbv beta delta
    [yields emits faults output
     constructor interface_draw as_Shape static_draw template_draw
     self_reference
     embedded_Circle embedded_ShapeBase embedded_ShapeBase_of_RedRectangle
     NewShapeBase NewCircle NewRedRectangle NewBlueCircleWithText
     ShapeBase_Shape Circle_Shape RedRectangle_Shape
     BlueCircleWithText_Shape
     ShapeAbstract_set_Shape ShapeBase_set_Shape Circle_set_Shape
     RedRectangle_set_Shape BlueCircleWithText_set_Shape
     Shape_draw Shape_drawBoundary Shape_fillColor
     ShapeAbstract_draw ShapeBase_draw Circle_draw RedRectangle_draw
     BlueCircleWithText_draw
     ShapeBase_drawBoundary ShapeBase_fillColor Circle_drawBoundary
     Circle_fillColor RedRectangle_drawBoundary RedRectangle_fillColor
     BlueCircleWithText_drawBoundary BlueCircleWithText_fillColor
     set_ShapeAbstracts set_ShapeBases set_Circles set_RedRectangles
     set_BlueCircleWithTexts
     bind ret panic new load store Print Println line boundary fill] in *.

(** Every constructor returns, prints nothing, and hands back an
    instance wired to itself, whose [draw] through the interface writes
    the variant's line whatever was written before. *)
Lemma constructed (v : variant) (w : world Heap) :
  exists p w',
    yields (constructor v) w p w' /\
    forall out,
      self_reference (as_Shape v p) (World (heap w') out) =
        (Returned (as_Shape v p), World (heap w') out) /\
      emits (interface_draw v p) (World (heap w') out) (line v).
Proof.
  destruct w as [[sas sbs cs rrs bcts] out0].
  destruct v; eexists _, _; expand; run.
  all: repeat split; intros; (run; reflexivity).
Qed.

Lemma Shape_drawBoundary_appends (s : Shape) :
  appends (Shape_drawBoundary s).
Proof.
  destruct s; unfold Shape_drawBoundary, ShapeBase_drawBoundary,
    Circle_drawBoundary, RedRectangle_drawBoundary,
    BlueCircleWithText_drawBoundary, Circle_drawBoundary; appends_tac.
Qed.

Lemma Shape_fillColor_appends (s : Shape) : appends (Shape_fillColor s).
Proof.
  destruct s; unfold Shape_fillColor, ShapeBase_fillColor,
    Circle_fillColor, RedRectangle_fillColor,
    BlueCircleWithText_fillColor, ShapeBase_fillColor; appends_tac.
Qed.

Lemma ShapeAbstract_draw_appends (sa : ShapeAbstract) :
  appends (ShapeAbstract_draw sa).
Proof.
  unfold ShapeAbstract_draw.
  apply appends_bind; [apply Shape_drawBoundary_appends | intros _].
  apply appends_bind; [apply appends_Print | intros _].
  apply Shape_fillColor_appends.
Qed.

Lemma ShapeBase_draw_appends (p : ptr) : appends (ShapeBase_draw p).
Proof.
  unfold ShapeBase_draw.
  apply appends_bind; [apply appends_load | intros v].
  apply appends_bind; [apply appends_load | intros sa].
  apply ShapeAbstract_draw_appends.
Qed.

Lemma Circle_draw_appends (p : ptr) : appends (Circle_draw p).
Proof.
  unfold Circle_draw.
  apply appends_bind; [apply appends_load | intros v].
  apply ShapeBase_draw_appends.
Qed.

Lemma Shape_draw_appends (s : Shape) : appends (Shape_draw s).
Proof.
  destruct s; simpl.
  - apply appends_panic.
  - apply ShapeBase_draw_appends.
  - apply Circle_draw_appends.
  - unfold RedRectangle_draw.
    apply appends_bind; [apply appends_load | intros v].
    apply ShapeBase_draw_appends.
  - unfold BlueCircleWithText_draw.
    apply appends_bind; [apply appends_load | intros v].
    apply appends_bind; [apply Circle_draw_appends | intros _].
    apply appends_Print.
Qed.

End EmbeddedFacts.

(** ** Facts about the explicit-argument program *)

Module ExplicitFacts.
Import Explicit.

Ltac expand :=
  cbv beta delta
    [yields emits faults output
     constructor interface_draw as_Shape static_draw template_draw
     embedded_Circle
     embedded_ShapeBase
     new_ShapeBase NewCircle NewRedRectangle NewBlueCircleWithText
     Shape_draw Shape_drawBoundary Shape_fillColor
     ShapeBase_draw Circle_draw RedRectangle_draw
     BlueCircleWithText_draw
     ShapeBase_drawBoundary ShapeBase_fillColor Circle_drawBoundary
     Circle_fillColor RedRectangle_drawBoundary RedRectangle_fillColor
     BlueCircleWithText_drawBoundary BlueCircleWithText_fillColor
     set_ShapeBases set_Circles set_RedRectangles
     set_BlueCircleWithTexts
     bind ret panic new load store Print Println line boundary fill] in *.

(** Every constructor returns and prints nothing, and [draw] on its
    result, called through the interface with the instance as argument,
    writes the variant's line whatever was written before. *)
Lemma constructed_arg (v : variant) (w : world Heap) :
  exists p w',
    yields (constructor v) w p w' /\
    forall out,
      emits (interface_draw v p) (World (heap w') out) (line v).
Proof.
  destruct w as [[sbs cs rrs bcts] out0].
  destruct v; eexists _, _; expand; run.
  all: repeat split; intros; (run; reflexivity).
Qed.

Lemma Shape_drawBoundary_appends_arg (s : Shape) :
  appends (Shape_drawBoundary s).
Proof.
  destruct s; unfold Shape_drawBoundary, ShapeBase_drawBoundary,
    Circle_drawBoundary, RedRectangle_drawBoundary,
    BlueCircleWithText_drawBoundary, Circle_drawBoundary; appends_tac.
Qed.

Lemma Shape_fillColor_appends_arg (s : Shape) : appends (Shape_fillColor s).
Proof.
  destruct s; unfold Shape_fillColor, ShapeBase_fillColor,
    Circle_fillColor, RedRectangle_fillColor,
    BlueCircleWithText_fillColor, ShapeBase_fillColor; appends_tac.
Qed.

Lemma ShapeBase_draw_appends_arg (p : ptr) (s : Shape) :
  appends (ShapeBase_draw p s).
Proof.
  unfold ShapeBase_draw.
  apply appends_bind; [apply Shape_drawBoundary_appends_arg | intros _].
  apply appends_bind; [apply appends_Print | intros _].
  apply Shape_fillColor_appends_arg.
Qed.

Lemma Circle_draw_appends_arg (p : ptr) (s : Shape) :
  appends (Circle_draw p s).
Proof.
  unfold Circle_draw.
  apply appends_bind; [apply appends_load | intros v].
  apply ShapeBase_draw_appends_arg.
Qed.

Lemma Shape_draw_appends_arg (s arg : Shape) : appends (Shape_draw s arg).
Proof.
  destruct s; simpl.
  - apply appends_panic.
  - apply ShapeBase_draw_appends_arg.
  - apply Circle_draw_appends_arg.
  - unfold RedRectangle_draw.
    apply appends_bind; [apply appends_load | intros v].
    apply ShapeBase_draw_appends_arg.
  - unfold BlueCircleWithText_draw.
    apply appends_bind; [apply appends_load | intros v].
    apply appends_bind; [apply Circle_draw_appends_arg | intros _].
    apply appends_Print.
Qed.

End ExplicitFacts.

(** ** The properties of the specification *)

(** C1: run from the start of the program (empty heap, nothing written), the
    driver of either program returns and has written exactly the four lines
    "draw nothing-fill nothing", "Circle-fill nothing", "Rectangle-Red" and
    "Circle-Blue-TextAnnotation", each ended by a newline, in that order. *)
Theorem demo_driver_output :
  (exists h,
      Explicit.main (World Explicit.empty "") =
        (Returned tt, World h expected_output)) /\
  (exists h,
      Embedded.main (World Embedded.empty "") =
        (Returned tt, World h expected_output)).
Proof. split; eexists; vm_compute; reflexivity. Qed.

(** C2: the base-defined [draw] calls [drawBoundary] through the interface
    value, prints "-", then calls [fillColor] through the same interface
    value.  Whenever the two calls through the interface value write [b]
    and [f], the template writes [b], "-", [f] and nothing else; when the
    first call panics, so does the template, having written nothing.  On
    every constructed instance the template, reached by promotion, writes
    the boundary and fill tokens of the instance's dynamic type. *)
Theorem template_draw_steps :
  (forall (receiver : ptr) (s : Explicit.Shape) (w : world Explicit.Heap)
          (b f : string),
      emits (Explicit.Shape_drawBoundary s) w b ->
      emits (Explicit.Shape_fillColor s) w f ->
      emits (Explicit.ShapeBase_draw receiver s) w (b +:+ "-" +:+ f)) /\
  (forall (sa : Embedded.ShapeAbstract) (w : world Embedded.Heap)
          (b f : string),
      let s := Embedded.ShapeAbstract_Shape sa in
      emits (Embedded.Shape_drawBoundary s) w b ->
      emits (Embedded.Shape_fillColor s) w f ->
      emits (Embedded.ShapeAbstract_draw sa) w (b +:+ "-" +:+ f)) /\
  (forall (receiver : ptr) (s : Explicit.Shape) (w : world Explicit.Heap),
      faults (Explicit.Shape_drawBoundary s) w ->
      faults (Explicit.ShapeBase_draw receiver s) w) /\
  (forall (sa : Embedded.ShapeAbstract) (w : world Embedded.Heap),
      let s := Embedded.ShapeAbstract_Shape sa in
      faults (Embedded.Shape_drawBoundary s) w ->
      faults (Embedded.ShapeAbstract_draw sa) w) /\
  (forall (v : variant) (w : world Explicit.Heap),
      exists p w',
        let x := Explicit.as_Shape v p in
        yields (Explicit.constructor v) w p w' /\
        emits (Explicit.Shape_drawBoundary x) w' (boundary v) /\
        emits (Explicit.Shape_fillColor x) w' (fill v) /\
        emits (Explicit.template_draw v p) w'
              (boundary v +:+ "-" +:+ fill v)) /\
  (forall (v : variant) (w : world Embedded.Heap),
      exists p w',
        let x := Embedded.as_Shape v p in
        yields (Embedded.constructor v) w p w' /\
        emits (Embedded.Shape_drawBoundary x) w' (boundary v) /\
        emits (Embedded.Shape_fillColor x) w' (fill v) /\
        emits (Embedded.template_draw v p) w'
              (boundary v +:+ "-" +:+ fill v)).
Proof.
  repeat apply conj.
  - intros receiver s w b f Hb Hf. unfold Explicit.ShapeBase_draw.
    apply emits_seq; [exact Hb|]. apply emits_seq; [apply emits_Print|].
    apply (emits_frame _ w);
      [apply ExplicitFacts.Shape_fillColor_appends_arg | exact Hf].
  - intros sa w b f s Hb Hf. unfold Embedded.ShapeAbstract_draw.
    apply emits_seq; [exact Hb|]. apply emits_seq; [apply emits_Print|].
    apply (emits_frame _ w);
      [apply EmbeddedFacts.Shape_fillColor_appends | exact Hf].
  - intros receiver s w Hb.
    unfold faults, Explicit.ShapeBase_draw, bind in *. now rewrite Hb.
  - intros sa w s Hb.
    unfold faults, Embedded.ShapeAbstract_draw, bind in *. subst s.
    now rewrite Hb.
  - intros v [[sbs cs rrs bcts] out0].
    destruct v; eexists _, _; ExplicitFacts.expand; run;
      repeat split.
    all: solve [run; reflexivity].
  - intros v [[sas sbs cs rrs bcts] out0].
    destruct v; eexists _, _; EmbeddedFacts.expand; run;
      repeat split.
    all: solve [run; reflexivity].
Qed.

Lemma template_draw_steps_witness :
  let wA := snd (Explicit.NewCircle (World Explicit.empty "")) in
  let wI := snd (Embedded.NewCircle (World Embedded.empty "")) in
  let c := Embedded.Shape_of_Circle (ref 0) in
  emits (Explicit.ShapeBase_draw nil (Explicit.Shape_of_Circle (ref 0))) wA
        ("Circle" +:+ "-" +:+ "fill nothing") /\
  emits (Embedded.ShapeAbstract_draw {| Embedded.ShapeAbstract_Shape := c |})
        wI ("Circle" +:+ "-" +:+ "fill nothing") /\
  faults (Explicit.ShapeBase_draw nil Explicit.Shape_nil) wA /\
  faults (Embedded.ShapeAbstract_draw
            {| Embedded.ShapeAbstract_Shape := Embedded.Shape_nil |}) wI.
Proof.
  intros wA wI c.
  destruct template_draw_steps as (HA & HI & FA & FI & _).
  repeat apply conj.
  - apply HA; vm_compute; reflexivity.
  - apply HI; vm_compute; reflexivity.
  - apply FA; vm_compute; reflexivity.
  - apply FI; vm_compute; reflexivity.
Defined.

(** C3: in the embedded-interface program, an instance whose [Shape] field
    is still nil (or whose chain of embedded pointers ends in nil before the
    field) makes [draw] panic with a nil dereference before anything is
    written, for every dynamic type; and every method called on the nil
    interface value itself panics in the same way.  The base line
    "draw nothing-fill nothing" is not produced. *)
Theorem unwired_instance_faults :
  (forall (x : Embedded.Shape) (w : world Embedded.Heap),
      Embedded.self_reference x w = (Returned Embedded.Shape_nil, w) \/
      Embedded.self_reference x w = (Panicked NilDereference, w) ->
      faults (Embedded.Shape_draw x) w /\
      output (Embedded.Shape_draw x) w = None) /\
  (forall w : world Embedded.Heap,
      faults (Embedded.Shape_draw Embedded.Shape_nil) w /\
      faults (Embedded.Shape_drawBoundary Embedded.Shape_nil) w /\
      faults (Embedded.Shape_fillColor Embedded.Shape_nil) w).
Proof.
  split.
  - intros x w Hx.
    assert (faults (Embedded.Shape_draw x) w) as Hf.
    { destruct w as [h out]. unfold faults.
      destruct x as [|p|p|p|p]; EmbeddedFacts.expand;
        simpl in *; try reflexivity.
      all: repeat
             match goal with
             | H : context [match ?p with nil => _ | ref _ => _ end] |- _ =>
                 destruct p; simpl in *; try reflexivity
             | H : context [match ?l !! ?a with Some _ => _ | None => _ end]
               |- _ =>
                 destruct (l !! a) as [[?]|]; simpl in *; try reflexivity
             end.
      all: destruct Hx as [Hx|Hx]; try discriminate Hx.
      all: injection Hx as Hx; subst; reflexivity. }
    split; [exact Hf|]. unfold output. now rewrite Hf.
  - intros w. repeat split.
Qed.

Lemma unwired_instance_faults_witness :
  let w := World (Embedded.Build_Heap
                    [{| Embedded.ShapeAbstract_Shape := Embedded.Shape_nil |}]
                    [{| Embedded.ShapeBase_ShapeAbstract := ref 0 |}]
                    [{| Embedded.Circle_ShapeBase := ref 0 |}] []
                    [{| Embedded.BlueCircleWithText_Circle := nil |}]) "" in
  let c := Embedded.Shape_of_Circle (ref 0) in
  let bct := Embedded.Shape_of_BlueCircleWithText (ref 0) in
  (faults (Embedded.Shape_draw c) w /\
   output (Embedded.Shape_draw c) w = None) /\
  (faults (Embedded.Shape_draw bct) w /\
   output (Embedded.Shape_draw bct) w = None).
Proof.
  intros w c bct. split.
  - apply (proj1 unwired_instance_faults). left. reflexivity.
  - apply (proj1 unwired_instance_faults). right. reflexivity.
Defined.

(** Where the field was assigned by the inner constructor and only the
    outer assignment [c.Shape = c] is left out, nothing faults: the template
    reaches the inner [ShapeBase] and the base line is drawn. *)
Example outer_wiring_skipped_draws_base_line :
  let sb := Embedded.Shape_of_ShapeBase (ref 0) in
  let c := Embedded.Shape_of_Circle (ref 0) in
  let w := World (Embedded.Build_Heap
                    [{| Embedded.ShapeAbstract_Shape := sb |}]
                    [{| Embedded.ShapeBase_ShapeAbstract := ref 0 |}]
                    [{| Embedded.Circle_ShapeBase := ref 0 |}] [] []) "" in
  Embedded.self_reference c w = (Returned sb, w) /\
  emits (Embedded.Shape_draw c) w (line Base).
Proof. split; reflexivity. Qed.

(** C4: on every variant the two programs draw the same line: built and
    drawn from any heap and after any earlier output, the instance of the
    explicit-argument program and the instance of the embedded-interface
    program both return and leave the same text on the standard output; and
    the two drivers, run from the start, write the same text. *)
Theorem strategies_agree :
  (forall (v : variant) (hA : Explicit.Heap) (hI : Embedded.Heap)
          (out : string),
      output (p <- Explicit.constructor v ;; Explicit.interface_draw v p)
             (World hA out) = Some (out +:+ line v) /\
      output (p <- Embedded.constructor v ;; Embedded.interface_draw v p)
             (World hI out) = Some (out +:+ line v)) /\
  output Explicit.main (World Explicit.empty "") =
    output Embedded.main (World Embedded.empty "") /\
  output Explicit.main (World Explicit.empty "") = Some expected_output.
Proof.
  split; [|split; vm_compute; reflexivity].
  intros v hA hI out. split.
  - destruct (ExplicitFacts.constructed_arg v (World hA out))
      as (p & [h' o'] & [Hc Ho] & Hd).
    simpl in Ho. subst o'. specialize (Hd out). simpl in Hd.
    unfold output, bind. rewrite Hc. unfold emits in Hd. now rewrite Hd.
  - destruct (EmbeddedFacts.constructed v (World hI out))
      as (p & [h' o'] & [Hc Ho] & Hd).
    simpl in Ho. subst o'. destruct (Hd out) as [_ Hd']. simpl in Hd'.
    unfold output, bind. rewrite Hc. unfold emits in Hd'. now rewrite Hd'.
Qed.

(** C5: [NewBlueCircleWithText] of the embedded-interface program embeds
    the very [Circle] that [NewCircle] returns.  In the explicit-argument
    program it does not call [NewCircle]: it allocates no [ShapeBase] and
    the embedded [Circle] holds a nil [*ShapeBase], where every [Circle]
    from [NewCircle] holds a fresh one.  The instance still prints
    [Circle]'s boundary token and the default fill of its [Circle]. *)
Theorem NewBlueCircleWithText_embedded_Circle :
  (forall w : world Embedded.Heap,
      exists c w1 p w',
        yields Embedded.NewCircle w c w1 /\
        yields Embedded.NewBlueCircleWithText w p w' /\
        Embedded.embedded_Circle p w' = (Returned c, w')) /\
  (forall w : world Explicit.Heap,
      exists c w1,
        yields Explicit.NewCircle w c w1 /\
        Explicit.embedded_ShapeBase c w1 =
          (Returned (ref (length (Explicit.ShapeBases (heap w)))), w1) /\
        length (Explicit.ShapeBases (heap w1)) =
          S (length (Explicit.ShapeBases (heap w)))) /\
  (forall w : world Explicit.Heap,
      exists p w' c,
        yields Explicit.NewBlueCircleWithText w p w' /\
        Explicit.embedded_Circle p w' = (Returned c, w') /\
        Explicit.embedded_ShapeBase c w' = (Returned nil, w') /\
        Explicit.ShapeBases (heap w') = Explicit.ShapeBases (heap w) /\
        emits (Explicit.BlueCircleWithText_drawBoundary p) w' "Circle" /\
        emits (Explicit.Circle_fillColor c) w' "fill nothing").
Proof.
  repeat apply conj.
  - intros [[sas sbs cs rrs bcts] out0].
    eexists _, _, _, _; EmbeddedFacts.expand; run.
    repeat split. all: solve [run; reflexivity].
  - intros [[sbs cs rrs bcts] out0].
    eexists _, _; ExplicitFacts.expand; run.
    repeat split; run; try reflexivity.
    rewrite length_app. simpl. lia.
  - intros [[sbs cs rrs bcts] out0].
    eexists _, _, _; ExplicitFacts.expand; run.
    repeat split. all: solve [run; reflexivity].
Qed.

(** C6: for every variant, calling [draw] through the interface value that
    holds an instance is the call of [draw] on the instance's concrete
    pointer type: the two runs agree in every world and for every pointer,
    and on a constructed instance both write the variant's line. *)
Theorem interface_call_is_static_call :
  (forall (v : variant) (p : ptr) (w : world Explicit.Heap),
      Explicit.interface_draw v p w = Explicit.static_draw v p w) /\
  (forall (v : variant) (p : ptr) (w : world Embedded.Heap),
      Embedded.interface_draw v p w = Embedded.static_draw v p w) /\
  (forall (v : variant) (w : world Explicit.Heap),
      exists p w',
        yields (Explicit.constructor v) w p w' /\
        emits (Explicit.interface_draw v p) w' (line v) /\
        emits (Explicit.static_draw v p) w' (line v)) /\
  (forall (v : variant) (w : world Embedded.Heap),
      exists p w',
        yields (Embedded.constructor v) w p w' /\
        emits (Embedded.interface_draw v p) w' (line v) /\
        emits (Embedded.static_draw v p) w' (line v)).
Proof.
  assert (HA : forall v p w,
             Explicit.interface_draw v p w = Explicit.static_draw v p w)
    by (intros [] p w; reflexivity).
  assert (HI : forall v p w,
             Embedded.interface_draw v p w = Embedded.static_draw v p w)
    by (intros [] p w; reflexivity).
  repeat apply conj; [exact HA | exact HI | |].
  - intros v w.
    destruct (ExplicitFacts.constructed_arg v w)
      as (p & [h' o'] & Hc & Hd).
    exists p, (World h' o'). specialize (Hd o').
    split; [exact Hc|]. split; [exact Hd|].
    unfold emits in *. now rewrite <- HA.
  - intros v w.
    destruct (EmbeddedFacts.constructed v w) as (p & [h' o'] & Hc & Hd).
    exists p, (World h' o'). destruct (Hd o') as [_ Hd'].
    split; [exact Hc|]. split; [exact Hd'|].
    unfold emits in *. now rewrite <- HI.
Qed.

(** C7: the line drawn by a [BlueCircleWithText] is what the [draw] of its
    embedded [Circle] writes, "Circle-Blue", followed by "-TextAnnotation":
    the named predecessor's [draw] has returned before the extension token
    is printed, and "Circle" occurs before "-TextAnnotation" in the line. *)
Theorem predecessor_draws_before_extension :
  (forall w : world Explicit.Heap,
      exists p w' c,
        let x := Explicit.Shape_of_BlueCircleWithText p in
        yields Explicit.NewBlueCircleWithText w p w' /\
        Explicit.embedded_Circle p w' = (Returned c, w') /\
        emits (Explicit.Circle_draw c x) w' "Circle-Blue" /\
        emits (Explicit.BlueCircleWithText_draw p x) w'
              ("Circle-Blue" +:+ "-TextAnnotation")) /\
  (forall w : world Embedded.Heap,
      exists p w' c,
        yields Embedded.NewBlueCircleWithText w p w' /\
        Embedded.embedded_Circle p w' = (Returned c, w') /\
        emits (Embedded.Circle_draw c) w' "Circle-Blue" /\
        emits (Embedded.BlueCircleWithText_draw p) w'
              ("Circle-Blue" +:+ "-TextAnnotation")) /\
  "Circle-Blue" +:+ "-TextAnnotation" = line ABlueCircleWithText /\
  occurs_before "Circle" "-TextAnnotation" (line ABlueCircleWithText).
Proof.
  repeat apply conj.
  - intros [[sbs cs rrs bcts] out0].
    eexists _, _, _; ExplicitFacts.expand; run.
    repeat split. all: solve [run; reflexivity].
  - intros [[sas sbs cs rrs bcts] out0].
    eexists _, _, _; EmbeddedFacts.expand; run.
    repeat split. all: solve [run; reflexivity].
  - reflexivity.
  - exists "", "-Blue", "". reflexivity.
Qed.

(** C8: on every constructed instance a second [draw], run in the world
    the first one left, writes the same line as the first; and no call of
    [draw], [drawBoundary] or [fillColor], on any interface value in any
    world, changes the heap. *)
Theorem draw_twice_same_output :
  (forall (v : variant) (w : world Explicit.Heap),
      exists p w',
        let draw := Explicit.interface_draw v p in
        yields (Explicit.constructor v) w p w' /\
        emits draw w' (line v) /\
        emits draw (snd (draw w')) (line v)) /\
  (forall (v : variant) (w : world Embedded.Heap),
      exists p w',
        let draw := Embedded.interface_draw v p in
        yields (Embedded.constructor v) w p w' /\
        emits draw w' (line v) /\
        emits draw (snd (draw w')) (line v)) /\
  (forall (s arg : Explicit.Shape) (w : world Explicit.Heap),
      heap (snd (Explicit.Shape_draw s arg w)) = heap w /\
      heap (snd (Explicit.Shape_drawBoundary s w)) = heap w /\
      heap (snd (Explicit.Shape_fillColor s w)) = heap w) /\
  (forall (s : Embedded.Shape) (w : world Embedded.Heap),
      heap (snd (Embedded.Shape_draw s w)) = heap w /\
      heap (snd (Embedded.Shape_drawBoundary s w)) = heap w /\
      heap (snd (Embedded.Shape_fillColor s w)) = heap w).
Proof.
  repeat apply conj.
  - intros v w.
    destruct (ExplicitFacts.constructed_arg v w)
      as (p & [h' o'] & Hc & Hd).
    exists p, (World h' o'). cbv zeta. split; [exact Hc|].
    assert (H1 : emits (Explicit.interface_draw v p) (World h' o') (line v))
      by exact (Hd o').
    split; [exact H1|].
    unfold emits in H1. rewrite H1. exact (Hd _).
  - intros v w.
    destruct (EmbeddedFacts.constructed v w) as (p & [h' o'] & Hc & Hd).
    exists p, (World h' o'). cbv zeta. split; [exact Hc|].
    assert (H1 : emits (Embedded.interface_draw v p) (World h' o') (line v))
      by exact (proj2 (Hd o')).
    split; [exact H1|].
    unfold emits in H1. rewrite H1. exact (proj2 (Hd _)).
  - intros s arg w. repeat split; apply appends_heap.
    + apply ExplicitFacts.Shape_draw_appends_arg.
    + apply ExplicitFacts.Shape_drawBoundary_appends_arg.
    + apply ExplicitFacts.Shape_fillColor_appends_arg.
  - intros s w. repeat split; apply appends_heap.
    + apply EmbeddedFacts.Shape_draw_appends.
    + apply EmbeddedFacts.Shape_drawBoundary_appends.
    + apply EmbeddedFacts.Shape_fillColor_appends.
Qed.

(** The field that a constructed instance holds stays what it is in every
    world that shares the instance's heap. *)
Lemma self_reference_stable (x : Embedded.Shape) (h : Embedded.Heap)
      (w2 : world Embedded.Heap) :
  (forall out,
      Embedded.self_reference x (World h out) = (Returned x, World h out)) ->
  heap w2 = h ->
  Embedded.self_reference x w2 = (Returned x, w2).
Proof.
  intros Hs Hh. destruct w2 as [h2 o2]. simpl in Hh. subst h2. apply Hs.
Qed.

(** C9: in the embedded-interface program every constructor returns an
    instance that has one new [ShapeAbstract] cell, whose [Shape] field,
    read through the promoted selector, holds the returned instance under
    its own dynamic type; the field keeps that value across any call of
    [draw], [drawBoundary] or [fillColor] on any interface value.  The
    inner constructor had stored the inner instance in the same field, and
    the outer assignment replaced it. *)
Theorem constructor_wires_outermost_instance :
  (forall (v : variant) (w : world Embedded.Heap),
      exists p w',
        let x := Embedded.as_Shape v p in
        yields (Embedded.constructor v) w p w' /\
        length (Embedded.ShapeAbstracts (heap w')) =
          S (length (Embedded.ShapeAbstracts (heap w))) /\
        Embedded.self_reference x w' = (Returned x, w') /\
        forall (s : Embedded.Shape) (out : string),
          let w0 := World (heap w') out in
          let w1 := snd (Embedded.Shape_draw s w0) in
          let w2 := snd (Embedded.Shape_drawBoundary s w0) in
          let w3 := snd (Embedded.Shape_fillColor s w0) in
          Embedded.self_reference x w1 = (Returned x, w1) /\
          Embedded.self_reference x w2 = (Returned x, w2) /\
          Embedded.self_reference x w3 = (Returned x, w3)) /\
  (forall w : world Embedded.Heap,
      exists sb w1 c w',
        yields Embedded.NewShapeBase w sb w1 /\
        Embedded.ShapeBase_Shape sb w1 =
          (Returned (Embedded.Shape_of_ShapeBase sb), w1) /\
        yields Embedded.NewCircle w c w' /\
        Embedded.embedded_ShapeBase c w' = (Returned sb, w') /\
        Embedded.ShapeBase_Shape sb w' =
          (Returned (Embedded.Shape_of_Circle c), w')) /\
  (forall w : world Embedded.Heap,
      exists sb w1 rr w',
        yields Embedded.NewShapeBase w sb w1 /\
        Embedded.ShapeBase_Shape sb w1 =
          (Returned (Embedded.Shape_of_ShapeBase sb), w1) /\
        yields Embedded.NewRedRectangle w rr w' /\
        Embedded.embedded_ShapeBase_of_RedRectangle rr w' =
          (Returned sb, w') /\
        Embedded.ShapeBase_Shape sb w' =
          (Returned (Embedded.Shape_of_RedRectangle rr), w')) /\
  (forall w : world Embedded.Heap,
      exists c w1 p w',
        yields Embedded.NewCircle w c w1 /\
        Embedded.Circle_Shape c w1 =
          (Returned (Embedded.Shape_of_Circle c), w1) /\
        yields Embedded.NewBlueCircleWithText w p w' /\
        Embedded.embedded_Circle p w' = (Returned c, w') /\
        Embedded.Circle_Shape c w' =
          (Returned (Embedded.Shape_of_BlueCircleWithText p), w')).
Proof.
  repeat apply conj.
  - intros v w.
    destruct (EmbeddedFacts.constructed v w) as (p & w' & Hc & Hd).
    exists p, w'. cbv zeta. split; [exact Hc|]. split; [|split].
    + destruct Hc as [Hc _]. clear Hd.
      destruct w as [[sas sbs cs rrs bcts] out0].
      destruct v; EmbeddedFacts.expand; revert Hc; run;
        intros Hc; injection Hc as _ <-; simpl;
        rewrite length_app; simpl; lia.
    + apply (self_reference_stable _ (heap w'));
        [intros out; apply Hd | reflexivity].
    + intros s out.
      repeat split;
        (apply (self_reference_stable _ (heap w'));
         [intros out'; apply Hd|]);
        rewrite appends_heap;
        auto using EmbeddedFacts.Shape_draw_appends,
                   EmbeddedFacts.Shape_drawBoundary_appends,
                   EmbeddedFacts.Shape_fillColor_appends.
  - intros [[sas sbs cs rrs bcts] out0].
    eexists _, _, _, _; EmbeddedFacts.expand; run.
    repeat split. all: solve [run; reflexivity].
  - intros [[sas sbs cs rrs bcts] out0].
    eexists _, _, _, _; EmbeddedFacts.expand; run.
    repeat split. all: solve [run; reflexivity].
  - intros [[sas sbs cs rrs bcts] out0].
    eexists _, _, _, _; EmbeddedFacts.expand; run.
    repeat split. all: solve [run; reflexivity].
Qed.

(** C10: in the explicit-argument program, the instance that
    [NewBlueCircleWithText] returns embeds a [Circle] whose [*ShapeBase] is
    nil, and still [draw], [drawBoundary] and [fillColor] through the
    interface all return, writing "Circle-Blue-TextAnnotation", "Circle"
    and "Blue".  Its [draw] is the base [draw] called on the nil receiver,
    followed by the extension token, and the base [draw] does the same
    whatever its receiver is. *)
Theorem nil_ShapeBase_is_harmless :
  (forall w : world Explicit.Heap,
      exists p w' c,
        let x := Explicit.Shape_of_BlueCircleWithText p in
        yields Explicit.NewBlueCircleWithText w p w' /\
        Explicit.embedded_Circle p w' = (Returned c, w') /\
        Explicit.embedded_ShapeBase c w' = (Returned nil, w') /\
        emits (Explicit.Shape_draw x x) w' "Circle-Blue-TextAnnotation" /\
        emits (Explicit.Shape_drawBoundary x) w' "Circle" /\
        emits (Explicit.Shape_fillColor x) w' "Blue" /\
        Explicit.Shape_draw x x w' =
          (Explicit.ShapeBase_draw nil x ;; Print "-TextAnnotation") w') /\
  (forall (r1 r2 : ptr) (s : Explicit.Shape) (w : world Explicit.Heap),
      Explicit.ShapeBase_draw r1 s w = Explicit.ShapeBase_draw r2 s w).
Proof.
  split; [|reflexivity].
  intros [[sbs cs rrs bcts] out0].
  eexists _, _, _; ExplicitFacts.expand; run.
  repeat split. all: solve [run; reflexivity].
Qed.

(** ** Further facts about the run-time model *)

Section Frames.
Context {H : Type}.

Lemma append_nil_inv (a t : string) : a +:+ t = a -> t = "".
Proof.
  intros Ht. rewrite <- (append_nil_r a) in Ht at 2.
  exact (inj (String.app a) _ _ Ht).
Qed.

Lemma forallb_lookup {T} (f : T -> bool) (l : list T) (a : nat) (v : T) :
  forallb f l = true -> l !! a = Some v -> f v = true.
Proof.
  revert a. induction l as [|y l IH]; intros a Hf Hl; [discriminate|].
  simpl in Hf. apply andb_true_iff in Hf as [Hy Hf].
  destruct a as [|a]; simpl in Hl.
  - now injection Hl as <-.
  - exact (IH a Hf Hl).
Qed.

Lemma forallb_mono {T} (f g : T -> bool) (l : list T) :
  (forall y, f y = true -> g y = true) ->
  forallb f l = true -> forallb g l = true.
Proof.
  intros Hfg. induction l as [|y l IH]; simpl; [reflexivity|].
  rewrite !andb_true_iff. intros [Hy Hl]. split; auto.
Qed.

Lemma forallb_snoc {T} (f g : T -> bool) (l : list T) (x : T) :
  (forall y, f y = true -> g y = true) ->
  forallb f l = true -> g x = true -> forallb g (l ++ [x]) = true.
Proof.
  intros Hfg Hl Hx. rewrite forallb_app. simpl.
  rewrite (forallb_mono f g l Hfg Hl), Hx. reflexivity.
Qed.

Lemma allocated_lookup {T} (l : list T) (p : ptr) :
  allocated l p = true -> exists a v, p = ref a /\ l !! a = Some v.
Proof.
  destruct p as [|a]; simpl; [discriminate|]. intros Ha.
  apply Nat.ltb_lt in Ha. destruct (lookup_lt_is_Some_2 l a Ha) as [v Hv].
  now exists a, v.
Qed.

Lemma allocated_app {T} (l k : list T) (p : ptr) :
  allocated l p = true -> allocated (l ++ k) p = true.
Proof.
  destruct p as [|a]; simpl; [discriminate|]. rewrite !Nat.ltb_lt.
  rewrite length_app. lia.
Qed.

Lemma allocated_snoc {T} (l : list T) (x : T) :
  allocated (l ++ [x]) (ref (length l)) = true.
Proof. simpl. rewrite Nat.ltb_lt, length_app. simpl. lia. Qed.

Lemma runs_Print (s : string) (h : H) : runs (Print s) h.
Proof. exists s. reflexivity. Qed.

Lemma runs_seq (m k : exec H unit) (h : H) :
  runs m h -> runs k h -> runs (m ;; k) h.
Proof.
  intros [t Ht] [u Hu]. exists (t +:+ u). intros out.
  unfold bind. rewrite Ht, Hu. now rewrite append_assoc.
Qed.

(** A load through an allocated pointer returns a cell that has every
    property all cells have. *)
Lemma runs_load {T} (cells : H -> list T) (f : T -> bool) (p : ptr)
      (k : T -> exec H unit) (h : H) :
  allocated (cells h) p = true ->
  forallb f (cells h) = true ->
  (forall v, f v = true -> runs (k v) h) ->
  runs (v <- load cells p ;; k v) h.
Proof.
  intros Hp Hf Hk.
  destruct (allocated_lookup _ _ Hp) as (a & v & -> & Hv).
  destruct (Hk v (forallb_lookup f _ a v Hf Hv)) as [t Ht].
  exists t. intros out. unfold bind, load. simpl. rewrite Hv. apply Ht.
Qed.

Lemma runs_emits (m : exec H unit) (w : world H) :
  runs m (heap w) -> exists t, emits m w t.
Proof.
  intros [t Ht]. exists t. unfold emits.
  rewrite <- (Ht (stdout w)). now rewrite world_eta.
Qed.

Lemma steady_ret {A} (h h' : H) (a : A) : steady h h' (ret a).
Proof.
  split; [apply appends_ret|]. intros r t Hr out.
  specialize (Hr out). unfold ret in *. injection Hr as -> Ht.
  now rewrite <- Ht.
Qed.

Lemma steady_panic {A} (h h' : H) (f : fault) :
  steady h h' (panic (A := A) f).
Proof.
  split; [apply appends_panic|]. intros r t Hr. specialize (Hr "").
  discriminate Hr.
Qed.

Lemma steady_Print (h h' : H) (s : string) : steady h h' (Print s).
Proof.
  split; [apply appends_Print|]. intros r t Hr out.
  specialize (Hr out). unfold Print in *. simpl in *.
  injection Hr as <- Ht. apply (inj (String.app out)) in Ht.
  now subst t.
Qed.

Lemma steady_load {T} (cells : H -> list T) (h h' : H) (p : ptr) :
  cells h `prefix_of` cells h' -> steady h h' (load cells p).
Proof.
  intros [k Hk]. split; [apply appends_load|]. intros r t Hr out.
  specialize (Hr out). unfold load in *. destruct p as [|a]; [discriminate|].
  simpl in *. destruct (cells h !! a) as [v|] eqn:E; [|discriminate].
  injection Hr as -> Ht. rewrite Hk, (lookup_app_l_Some _ _ _ _ E).
  now rewrite <- Ht.
Qed.

Lemma steady_bind {A B} (h h' : H) (m : exec H A) (k : A -> exec H B) :
  steady h h' m -> (forall a, steady h h' (k a)) -> steady h h' (bind m k).
Proof.
  intros [Am Cm] Hk. split.
  { apply appends_bind; [exact Am | intros a; apply Hk]. }
  intros r t Hb.
  destruct (Am h) as (r1 & t1 & H1).
  destruct r1 as [a|f].
  2: { specialize (Hb ""). unfold bind in Hb. rewrite H1 in Hb.
       discriminate Hb. }
  destruct (Hk a) as [Ak Ck].
  destruct (Ak h) as (r2 & t2 & H2).
  assert (r2 = Returned r /\ t = t1 +:+ t2) as [-> ->].
  { specialize (Hb ""). unfold bind in Hb. rewrite H1, H2 in Hb.
    injection Hb as -> Ht. split; [reflexivity|].
    rewrite append_assoc in Ht. symmetry.
    exact (inj (String.app "") _ _ Ht). }
  intros out. unfold bind.
  rewrite (Cm a t1 H1 out), (Ck r t2 H2 (out +:+ t1)).
  now rewrite append_assoc.
Qed.

(** What a steady statement emits in a world, it emits in every world of
    the larger heap. *)
Lemma steady_emits (h' : H) (m : exec H unit) (w : world H) (t : string) :
  steady (heap w) h' m -> emits m w t ->
  forall out, emits m (World h' out) t.
Proof.
  intros [Am Cm] Hw out. apply (Cm tt t).
  intros out'. exact (emits_frame m w t Am Hw out').
Qed.
End Frames.

Ltac steady_tac :=
  repeat first
    [ apply steady_Print | apply steady_ret | apply steady_panic
    | apply steady_load; assumption | apply steady_bind | intro ].

(** ** Further facts about the embedded-interface program *)

Module EmbeddedFrames.
Import Embedded.

Section Extended.
Variables h h' : Heap.
Hypothesis Hext : extends h h'.

Lemma Shape_drawBoundary_steady (s : Shape) :
  steady h h' (Shape_drawBoundary s).
Proof.
  destruct Hext as (? & ? & ? & ? & ?).
  destruct s; unfold Shape_drawBoundary, ShapeBase_drawBoundary,
    RedRectangle_drawBoundary, BlueCircleWithText_drawBoundary,
    Circle_drawBoundary; steady_tac.
Qed.

Lemma Shape_fillColor_steady (s : Shape) : steady h h' (Shape_fillColor s).
Proof.
  destruct Hext as (? & ? & ? & ? & ?).
  destruct s; unfold Shape_fillColor, Circle_fillColor,
    RedRectangle_fillColor, BlueCircleWithText_fillColor,
    ShapeBase_fillColor; steady_tac.
Qed.

Lemma ShapeBase_draw_steady (p : ptr) : steady h h' (ShapeBase_draw p).
Proof.
  pose proof Shape_drawBoundary_steady. pose proof Shape_fillColor_steady.
  destruct Hext as (? & ? & ? & ? & ?).
  unfold ShapeBase_draw, ShapeAbstract_draw.
  repeat first [ apply steady_load; assumption | apply steady_Print
               | apply steady_bind | intro | solve [auto] ].
Qed.

Lemma Circle_draw_steady (p : ptr) : steady h h' (Circle_draw p).
Proof.
  pose proof ShapeBase_draw_steady.
  destruct Hext as (? & ? & ? & ? & ?). unfold Circle_draw.
  apply steady_bind; [apply steady_load; assumption | auto].
Qed.

Lemma Shape_draw_steady (s : Shape) : steady h h' (Shape_draw s).
Proof.
  pose proof ShapeBase_draw_steady. pose proof Circle_draw_steady.
  destruct Hext as (? & ? & ? & ? & ?).
  destruct s; simpl; auto.
  - apply steady_panic.
  - unfold RedRectangle_draw.
    apply steady_bind; [apply steady_load; assumption | auto].
  - unfold BlueCircleWithText_draw.
    apply steady_bind; [apply steady_load; assumption | intros v].
    apply steady_bind; [auto | intros _; apply steady_Print].
Qed.

Lemma self_reference_steady (s : Shape) : steady h h' (self_reference s).
Proof.
  destruct Hext as (? & ? & ? & ? & ?).
  destruct s; unfold self_reference, BlueCircleWithText_Shape,
    RedRectangle_Shape, Circle_Shape, ShapeBase_Shape; steady_tac.
Qed.
End Extended.

(** A constructor keeps every cell there was and adds its own. *)
Lemma constructor_extends (v : variant) (w : world Heap) :
  exists p w',
    yields (constructor v) w p w' /\ extends (heap w) (heap w').
Proof.
  destruct w as [[sas sbs cs rrs bcts] out0].
  destruct v; eexists _, _; EmbeddedFacts.expand; run;
    (split; [split; reflexivity|]); unfold extends; simpl;
    repeat split; first [reflexivity | apply prefix_app_r; reflexivity].
Qed.

End EmbeddedFrames.

(** ** Further facts about the explicit-argument program *)

Module ExplicitFrames.
Import Explicit.

Section Extended.
Variables h h' : Heap.
Hypothesis Hext : extends h h'.

Lemma Shape_drawBoundary_steady_arg (s : Shape) :
  steady h h' (Shape_drawBoundary s).
Proof.
  destruct Hext as (? & ? & ? & ?).
  destruct s; unfold Shape_drawBoundary, ShapeBase_drawBoundary,
    RedRectangle_drawBoundary, BlueCircleWithText_drawBoundary,
    Circle_drawBoundary; steady_tac.
Qed.

Lemma Shape_fillColor_steady_arg (s : Shape) :
  steady h h' (Shape_fillColor s).
Proof.
  destruct Hext as (? & ? & ? & ?).
  destruct s; unfold Shape_fillColor, Circle_fillColor,
    RedRectangle_fillColor, BlueCircleWithText_fillColor,
    ShapeBase_fillColor; steady_tac.
Qed.

Lemma ShapeBase_draw_steady_arg (p : ptr) (s : Shape) :
  steady h h' (ShapeBase_draw p s).
Proof.
  unfold ShapeBase_draw.
  apply steady_bind; [apply Shape_drawBoundary_steady_arg | intros _].
  apply steady_bind; [apply steady_Print | intros _].
  apply Shape_fillColor_steady_arg.
Qed.

Lemma Shape_draw_steady_arg (s arg : Shape) :
  steady h h' (Shape_draw s arg).
Proof.
  pose proof ShapeBase_draw_steady_arg.
  destruct Hext as (? & ? & ? & ?).
  destruct s; simpl; auto.
  - apply steady_panic.
  - unfold Circle_draw.
    apply steady_bind; [apply steady_load; assumption | auto].
  - unfold RedRectangle_draw.
    apply steady_bind; [apply steady_load; assumption | auto].
  - unfold BlueCircleWithText_draw, Circle_draw.
    apply steady_bind; [apply steady_load; assumption | intros v].
    apply steady_bind; [|intros _; apply steady_Print].
    apply steady_bind; [apply steady_load; assumption | auto].
Qed.
End Extended.

Lemma constructor_extends_arg (v : variant) (w : world Heap) :
  exists p w',
    yields (constructor v) w p w' /\ extends (heap w) (heap w').
Proof.
  destruct w as [[sbs cs rrs bcts] out0].
  destruct v; eexists _, _; ExplicitFacts.expand; run;
    (split; [split; reflexivity|]); unfold extends; simpl;
    repeat split; first [reflexivity | apply prefix_app_r; reflexivity].
Qed.

End ExplicitFrames.

(** ** Further properties of the programs *)

Lemma emits_compose {H} (m k : exec H unit) (w : world H) (t u : string) :
  appends k -> emits m w t -> emits k w u -> emits (m ;; k) w (t +:+ u).
Proof.
  intros Ak Hm Hk. apply emits_seq; [exact Hm|].
  exact (emits_frame k w u Ak Hk _).
Qed.

Lemma steady_returns {H A} (h' : H) (m : exec H A) (w : world H) (r : A) :
  steady (heap w) h' m -> m w = (Returned r, w) ->
  forall out, m (World h' out) = (Returned r, World h' out).
Proof.
  intros [Am Cm] Hw out.
  destruct (Am (heap w)) as (r1 & t1 & H1).
  pose proof (H1 (stdout w)) as H0. rewrite world_eta, Hw in H0.
  destruct w as [h o]. simpl in *. injection H0 as <- Ht.
  symmetry in Ht. apply append_nil_inv in Ht. subst t1.
  rewrite <- (append_nil_r out) at 2. apply (Cm r ""). exact H1.
Qed.

(** X1: calls of [draw] do not interfere.  If, in one world, [draw] on one
    interface value writes [t] and [draw] on another writes [u], then the
    two calls in sequence return and write [t] followed by [u]: the second
    call is not affected by the first. *)
Theorem draws_compose :
  (forall (x ax y ay : Explicit.Shape) (w : world Explicit.Heap)
          (t u : string),
      emits (Explicit.Shape_draw x ax) w t ->
      emits (Explicit.Shape_draw y ay) w u ->
      emits (Explicit.Shape_draw x ax ;; Explicit.Shape_draw y ay) w
            (t +:+ u)) /\
  (forall (x y : Embedded.Shape) (w : world Embedded.Heap) (t u : string),
      emits (Embedded.Shape_draw x) w t ->
      emits (Embedded.Shape_draw y) w u ->
      emits (Embedded.Shape_draw x ;; Embedded.Shape_draw y) w (t +:+ u)).
Proof.
  split.
  - intros x ax y ay w t u Hx Hy. apply emits_compose; auto.
    apply ExplicitFacts.Shape_draw_appends_arg.
  - intros x y w t u Hx Hy. apply emits_compose; auto.
    apply EmbeddedFacts.Shape_draw_appends.
Qed.

Lemma draws_compose_witness :
  let wA := snd (Explicit.main (World Explicit.empty "")) in
  let wI := snd (Embedded.main (World Embedded.empty "")) in
  let cA := Explicit.Shape_of_Circle (ref 0) in
  let rA := Explicit.Shape_of_RedRectangle (ref 0) in
  emits (Explicit.Shape_draw cA cA ;; Explicit.Shape_draw rA rA) wA
        ("Circle-fill nothing" +:+ "Rectangle-Red") /\
  emits (Embedded.Shape_draw (Embedded.Shape_of_Circle (ref 0)) ;;
         Embedded.Shape_draw (Embedded.Shape_of_RedRectangle (ref 0))) wI
        ("Circle-fill nothing" +:+ "Rectangle-Red").
Proof.
  intros wA wI cA rA. split.
  - apply (proj1 draws_compose); vm_compute; reflexivity.
  - apply (proj2 draws_compose); vm_compute; reflexivity.
Defined.

(** X2: constructing an instance leaves the instances there were as they
    are.  Whatever [draw] wrote on an interface value before a constructor
    ran, it writes after; in the embedded-interface program the [Shape]
    field of an earlier instance holds what it held. *)
Theorem construction_keeps_instances :
  (forall (v : variant) (w : world Explicit.Heap) (p : ptr)
          (w' : world Explicit.Heap),
      Explicit.constructor v w = (Returned p, w') ->
      forall (x arg : Explicit.Shape) (t : string),
        emits (Explicit.Shape_draw x arg) w t ->
        emits (Explicit.Shape_draw x arg) w' t) /\
  (forall (v : variant) (w : world Embedded.Heap) (p : ptr)
          (w' : world Embedded.Heap),
      Embedded.constructor v w = (Returned p, w') ->
      forall x : Embedded.Shape,
        (forall t : string,
            emits (Embedded.Shape_draw x) w t ->
            emits (Embedded.Shape_draw x) w' t) /\
        (forall s : Embedded.Shape,
            Embedded.self_reference x w = (Returned s, w) ->
            Embedded.self_reference x w' = (Returned s, w'))).
Proof.
  split.
  - intros v w p w' Hc x arg t Hx.
    destruct (ExplicitFrames.constructor_extends_arg v w)
      as (p0 & w0 & [Hy Ho] & Hext).
    rewrite Hy in Hc. injection Hc as -> ->.
    rewrite <- (world_eta w'), Ho.
    apply (steady_emits (heap w') _ w t); [|exact Hx].
    now apply ExplicitFrames.Shape_draw_steady_arg.
  - intros v w p w' Hc x.
    destruct (EmbeddedFrames.constructor_extends v w)
      as (p0 & w0 & [Hy Ho] & Hext).
    rewrite Hy in Hc. injection Hc as -> ->. split.
    + intros t Hx. rewrite <- (world_eta w'), Ho.
      apply (steady_emits (heap w') _ w t); [|exact Hx].
      now apply EmbeddedFrames.Shape_draw_steady.
    + intros s Hs. rewrite <- (world_eta w').
      apply (steady_returns (heap w') _ w s); [|exact Hs].
      now apply EmbeddedFrames.self_reference_steady.
Qed.

Lemma construction_keeps_instances_witness :
  let wA := snd (Explicit.NewCircle (World Explicit.empty "")) in
  let wA' := snd (Explicit.NewBlueCircleWithText wA) in
  let wI := snd (Embedded.NewCircle (World Embedded.empty "")) in
  let wI' := snd (Embedded.NewBlueCircleWithText wI) in
  let cA := Explicit.Shape_of_Circle (ref 0) in
  let cI := Embedded.Shape_of_Circle (ref 0) in
  emits (Explicit.Shape_draw cA cA) wA' "Circle-fill nothing" /\
  emits (Embedded.Shape_draw cI) wI' "Circle-fill nothing" /\
  Embedded.self_reference cI wI' = (Returned cI, wI').
Proof.
  intros wA wA' wI wI' cA cI.
  destruct construction_keeps_instances as [HA HI].
  repeat apply conj.
  - apply (HA ABlueCircleWithText wA (ref 0) wA');
      vm_compute; reflexivity.
  - apply (HI ABlueCircleWithText wI (ref 0) wI');
      vm_compute; reflexivity.
  - apply (HI ABlueCircleWithText wI (ref 0) wI');
      vm_compute; reflexivity.
Defined.

Arguments allocated : simpl never.

Ltac grow_forallb :=
  repeat match goal with
         | |- _ /\ _ => split
         | |- forallb _ (_ ++ [_]) = true =>
             eapply forallb_snoc; [ | eassumption | ]
         | |- forallb _ _ = true => eapply forallb_mono; [ | eassumption ]
         end.

Ltac grow_allocated :=
  simpl in *;
  first [ discriminate | assumption | apply allocated_snoc
        | apply allocated_app; assumption | reflexivity ].

Module EmbeddedSafety.
Import Embedded.

Lemma wired_parts (h : Heap) :
  wired h = true ->
  forallb (fun sa => Shape_allocated h (ShapeAbstract_Shape sa))
          (ShapeAbstracts h) = true /\
  forallb (fun sb => allocated (ShapeAbstracts h) (ShapeBase_ShapeAbstract sb))
          (ShapeBases h) = true /\
  forallb (fun c => allocated (ShapeBases h) (Circle_ShapeBase c))
          (Circles h) = true /\
  forallb (fun rr => allocated (ShapeBases h) (RedRectangle_ShapeBase rr))
          (RedRectangles h) = true /\
  forallb (fun bct => allocated (Circles h) (BlueCircleWithText_Circle bct))
          (BlueCircleWithTexts h) = true.
Proof. unfold wired. rewrite !andb_true_iff. tauto. Qed.

Section Wired.
Variable h : Heap.
Hypothesis Hw : wired h = true.

Lemma Shape_drawBoundary_runs (s : Shape) :
  Shape_allocated h s = true -> runs (Shape_drawBoundary s) h.
Proof.
  destruct (wired_parts h Hw) as (_ & _ & _ & _ & Hb).
  destruct s as [|p|p|p|p]; simpl; intros Hs;
    [discriminate | apply runs_Print | apply runs_Print | apply runs_Print |].
  unfold BlueCircleWithText_drawBoundary.
  apply (runs_load _ _ _ _ _ Hs Hb). intros v _. apply runs_Print.
Qed.

Lemma Shape_fillColor_runs (s : Shape) :
  Shape_allocated h s = true -> runs (Shape_fillColor s) h.
Proof.
  destruct (wired_parts h Hw) as (_ & _ & Hc & _ & _).
  destruct s as [|p|p|p|p]; simpl; intros Hs;
    [discriminate | apply runs_Print | | apply runs_Print | apply runs_Print].
  unfold Circle_fillColor.
  apply (runs_load _ _ _ _ _ Hs Hc). intros v _. apply runs_Print.
Qed.

Lemma ShapeBase_draw_runs (p : ptr) :
  allocated (ShapeBases h) p = true -> runs (ShapeBase_draw p) h.
Proof.
  destruct (wired_parts h Hw) as (Ha & Hb & _ & _ & _). intros Hp.
  unfold ShapeBase_draw.
  apply (runs_load _ _ _ _ _ Hp Hb). intros v Hv.
  apply (runs_load _ _ _ _ _ Hv Ha). intros sa Hsa.
  unfold ShapeAbstract_draw.
  apply runs_seq; [now apply Shape_drawBoundary_runs|].
  apply runs_seq; [apply runs_Print | now apply Shape_fillColor_runs].
Qed.

Lemma Circle_draw_runs (p : ptr) :
  allocated (Circles h) p = true -> runs (Circle_draw p) h.
Proof.
  destruct (wired_parts h Hw) as (_ & _ & Hc & _ & _). intros Hp.
  unfold Circle_draw.
  apply (runs_load _ _ _ _ _ Hp Hc). intros v Hv.
  now apply ShapeBase_draw_runs.
Qed.

Lemma Shape_draw_runs (s : Shape) :
  Shape_allocated h s = true -> runs (Shape_draw s) h.
Proof.
  destruct (wired_parts h Hw) as (_ & _ & _ & Hr & Hb).
  destruct s as [|p|p|p|p]; simpl; intros Hs.
  - discriminate.
  - now apply ShapeBase_draw_runs.
  - now apply Circle_draw_runs.
  - unfold RedRectangle_draw.
    apply (runs_load _ _ _ _ _ Hs Hr). intros v Hv.
    now apply ShapeBase_draw_runs.
  - unfold BlueCircleWithText_draw.
    apply (runs_load _ _ _ _ _ Hs Hb). intros v Hv.
    apply runs_seq; [now apply Circle_draw_runs | apply runs_Print].
Qed.
End Wired.

Lemma Shape_allocated_extends (h h' : Heap) (s : Shape) :
  extends h h' -> Shape_allocated h s = true -> Shape_allocated h' s = true.
Proof.
  destruct h, h'. unfold extends. simpl.
  intros (_ & [? ->] & [? ->] & [? ->] & [? ->]).
  destruct s; simpl; try discriminate; apply allocated_app.
Qed.

Lemma constructor_wired (v : variant) (w : world Heap) :
  wired (heap w) = true ->
  exists p w',
    yields (constructor v) w p w' /\
    wired (heap w') = true /\
    Shape_allocated (heap w') (as_Shape v p) = true.
Proof.
  intros Hw. apply wired_parts in Hw.
  destruct w as [[sas sbs cs rrs bcts] out0]. simpl in Hw.
  destruct Hw as (Ha & Hb & Hc & Hr & Ht).
  destruct v; eexists _, _; EmbeddedFacts.expand; run;
    (split; [split; reflexivity|]); (split; [|grow_allocated]);
    unfold wired; cbn [heap ShapeAbstracts ShapeBases Circles RedRectangles
                       BlueCircleWithTexts]; rewrite !andb_true_iff;
    grow_forallb.
  all: try intros y Hy.
  all: try (destruct y as [[|?|?|?|?]]).
  all: grow_allocated.
Qed.

End EmbeddedSafety.

Lemma forallb_always {T} (l : list T) : forallb (fun _ => true) l = true.
Proof. induction l as [|y l IH]; simpl; [reflexivity | exact IH]. Qed.

Lemma runs_load_any {H T} (cells : H -> list T) (p : ptr)
      (k : T -> exec H unit) (h : H) :
  allocated (cells h) p = true ->
  (forall v, runs (k v) h) ->
  runs (v <- load cells p ;; k v) h.
Proof.
  intros Hp Hk.
  apply (runs_load cells (fun _ => true) p k h Hp (forallb_always _)).
  intros v _. apply Hk.
Qed.

Module ExplicitSafety.
Import Explicit.

Section Linked.
Variable h : Heap.
Hypothesis Hl : linked h = true.

Lemma Shape_drawBoundary_runs_arg (s : Shape) :
  Shape_allocated h s = true -> runs (Shape_drawBoundary s) h.
Proof.
  destruct s as [|p|p|p|p]; simpl; intros Hs;
    [discriminate | apply runs_Print | apply runs_Print | apply runs_Print |].
  unfold BlueCircleWithText_drawBoundary.
  apply (runs_load_any _ _ _ _ Hs). intros v. apply runs_Print.
Qed.

Lemma Shape_fillColor_runs_arg (s : Shape) :
  Shape_allocated h s = true -> runs (Shape_fillColor s) h.
Proof.
  destruct s as [|p|p|p|p]; simpl; intros Hs;
    [discriminate | apply runs_Print | | apply runs_Print | apply runs_Print].
  unfold Circle_fillColor.
  apply (runs_load_any _ _ _ _ Hs). intros v. apply runs_Print.
Qed.

Lemma ShapeBase_draw_runs_arg (receiver : ptr) (s : Shape) :
  Shape_allocated h s = true -> runs (ShapeBase_draw receiver s) h.
Proof.
  intros Hs. unfold ShapeBase_draw.
  apply runs_seq; [now apply Shape_drawBoundary_runs_arg|].
  apply runs_seq; [apply runs_Print | now apply Shape_fillColor_runs_arg].
Qed.

Lemma Circle_draw_runs_arg (c : ptr) (s : Shape) :
  allocated (Circles h) c = true -> Shape_allocated h s = true ->
  runs (Circle_draw c s) h.
Proof.
  intros Hc Hs. unfold Circle_draw.
  apply (runs_load_any _ _ _ _ Hc). intros v.
  now apply ShapeBase_draw_runs_arg.
Qed.

Lemma Shape_draw_runs_arg (x arg : Shape) :
  Shape_allocated h x = true -> Shape_allocated h arg = true ->
  runs (Shape_draw x arg) h.
Proof.
  destruct x as [|p|p|p|p]; simpl; intros Hx Ha.
  - discriminate.
  - now apply ShapeBase_draw_runs_arg.
  - now apply Circle_draw_runs_arg.
  - unfold RedRectangle_draw.
    apply (runs_load_any _ _ _ _ Hx). intros v.
    now apply ShapeBase_draw_runs_arg.
  - unfold BlueCircleWithText_draw.
    apply (runs_load _ _ _ _ _ Hx Hl). intros v Hv.
    apply runs_seq; [now apply Circle_draw_runs_arg | apply runs_Print].
Qed.
End Linked.

Lemma Shape_allocated_extends_arg (h h' : Heap) (s : Shape) :
  extends h h' -> Shape_allocated h s = true -> Shape_allocated h' s = true.
Proof.
  destruct h, h'. unfold extends. simpl.
  intros ([? ->] & [? ->] & [? ->] & [? ->]).
  destruct s; simpl; try discriminate; apply allocated_app.
Qed.

Lemma constructor_linked (v : variant) (w : world Heap) :
  linked (heap w) = true ->
  exists p w',
    yields (constructor v) w p w' /\
    linked (heap w') = true /\
    Shape_allocated (heap w') (as_Shape v p) = true.
Proof.
  destruct w as [[sbs cs rrs bcts] out0]. unfold linked. simpl. intros Hl.
  destruct v; eexists _, _; ExplicitFacts.expand; run;
    (split; [split; reflexivity|]); (split; [|grow_allocated]);
    cbn [heap BlueCircleWithTexts Circles]; grow_forallb.
  all: try intros y Hy.
  all: grow_allocated.
Qed.

End ExplicitSafety.

(** X3: in the embedded-interface program, call a heap wired when every
    embedded pointer is the address of a cell and every [Shape] field holds
    an instance.  The empty heap is wired; every constructor, run in a
    wired heap, returns an instance in a wired heap and keeps the earlier
    instances; and in a wired heap [draw], [drawBoundary] and [fillColor]
    on any instance return, and never panic. *)
Theorem wired_heap_never_panics :
  Embedded.wired Embedded.empty = true /\
  (forall (v : variant) (w : world Embedded.Heap),
      Embedded.wired (heap w) = true ->
      exists p w',
        yields (Embedded.constructor v) w p w' /\
        Embedded.wired (heap w') = true /\
        Embedded.Shape_allocated (heap w') (Embedded.as_Shape v p) = true /\
        forall x,
          Embedded.Shape_allocated (heap w) x = true ->
          Embedded.Shape_allocated (heap w') x = true) /\
  (forall (x : Embedded.Shape) (w : world Embedded.Heap),
      Embedded.wired (heap w) = true ->
      Embedded.Shape_allocated (heap w) x = true ->
      (exists t, emits (Embedded.Shape_draw x) w t) /\
      (exists t, emits (Embedded.Shape_drawBoundary x) w t) /\
      (exists t, emits (Embedded.Shape_fillColor x) w t)).
Proof.
  split; [reflexivity|]. split.
  - intros v w Hw.
    destruct (EmbeddedSafety.constructor_wired v w Hw)
      as (p & w' & Hy & Hw' & Hp).
    exists p, w'. repeat split; try assumption; try apply Hy.
    intros x Hx.
    destruct (EmbeddedFrames.constructor_extends v w)
      as (p0 & w0 & [Hy0 _] & Hext).
    destruct Hy as [Hy _]. rewrite Hy in Hy0. injection Hy0 as <- <-.
    exact (EmbeddedSafety.Shape_allocated_extends _ _ x Hext Hx).
  - intros x w Hw Hx. repeat split; apply runs_emits.
    + now apply EmbeddedSafety.Shape_draw_runs.
    + now apply EmbeddedSafety.Shape_drawBoundary_runs.
    + now apply EmbeddedSafety.Shape_fillColor_runs.
Qed.

Lemma wired_heap_never_panics_witness :
  let w := snd (Embedded.NewCircle (World Embedded.empty "")) in
  (exists p w',
      yields Embedded.NewBlueCircleWithText w p w' /\
      Embedded.wired (heap w') = true /\
      Embedded.Shape_allocated
        (heap w') (Embedded.Shape_of_BlueCircleWithText p) = true /\
      forall x,
        Embedded.Shape_allocated (heap w) x = true ->
        Embedded.Shape_allocated (heap w') x = true) /\
  ((exists t, emits (Embedded.Shape_draw (Embedded.Shape_of_Circle (ref 0)))
                    w t) /\
   (exists t, emits (Embedded.Shape_drawBoundary
                       (Embedded.Shape_of_Circle (ref 0))) w t) /\
   (exists t, emits (Embedded.Shape_fillColor
                       (Embedded.Shape_of_Circle (ref 0))) w t)).
Proof.
  intros w. destruct wired_heap_never_panics as (_ & Hc & Hd). split.
  - apply (Hc ABlueCircleWithText w). vm_compute. reflexivity.
  - apply (Hd (Embedded.Shape_of_Circle (ref 0)) w);
      vm_compute; reflexivity.
Defined.

(** X4: in the explicit-argument program it is enough that every
    [BlueCircleWithText] embeds the address of a [Circle]; the embedded
    [*ShapeBase] pointers may be nil.  The empty heap is such a heap, the
    constructors keep it so and keep the earlier instances, and in such a
    heap [x.draw(arg)], [x.drawBoundary()] and [x.fillColor()] return for
    all instances [x] and [arg]. *)
Theorem linked_heap_never_panics :
  Explicit.linked Explicit.empty = true /\
  (forall (v : variant) (w : world Explicit.Heap),
      Explicit.linked (heap w) = true ->
      exists p w',
        yields (Explicit.constructor v) w p w' /\
        Explicit.linked (heap w') = true /\
        Explicit.Shape_allocated (heap w') (Explicit.as_Shape v p) = true /\
        forall x,
          Explicit.Shape_allocated (heap w) x = true ->
          Explicit.Shape_allocated (heap w') x = true) /\
  (forall (x arg : Explicit.Shape) (w : world Explicit.Heap),
      Explicit.linked (heap w) = true ->
      Explicit.Shape_allocated (heap w) x = true ->
      Explicit.Shape_allocated (heap w) arg = true ->
      (exists t, emits (Explicit.Shape_draw x arg) w t) /\
      (exists t, emits (Explicit.Shape_drawBoundary x) w t) /\
      (exists t, emits (Explicit.Shape_fillColor x) w t)).
Proof.
  split; [reflexivity|]. split.
  - intros v w Hw.
    destruct (ExplicitSafety.constructor_linked v w Hw)
      as (p & w' & Hy & Hw' & Hp).
    exists p, w'. repeat split; try assumption; try apply Hy.
    intros x Hx.
    destruct (ExplicitFrames.constructor_extends_arg v w)
      as (p0 & w0 & [Hy0 _] & Hext).
    destruct Hy as [Hy _]. rewrite Hy in Hy0. injection Hy0 as <- <-.
    exact (ExplicitSafety.Shape_allocated_extends_arg _ _ x Hext Hx).
  - intros x arg w Hw Hx Ha. repeat split; apply runs_emits.
    + now apply ExplicitSafety.Shape_draw_runs_arg.
    + now apply ExplicitSafety.Shape_drawBoundary_runs_arg.
    + now apply ExplicitSafety.Shape_fillColor_runs_arg.
Qed.

Lemma linked_heap_never_panics_witness :
  let w := snd (Explicit.NewBlueCircleWithText (World Explicit.empty "")) in
  let x := Explicit.Shape_of_BlueCircleWithText (ref 0) in
  let c := Explicit.Shape_of_Circle (ref 0) in
  (exists p w',
      yields Explicit.NewCircle w p w' /\
      Explicit.linked (heap w') = true /\
      Explicit.Shape_allocated (heap w') (Explicit.Shape_of_Circle p) = true /\
      forall y,
        Explicit.Shape_allocated (heap w) y = true ->
        Explicit.Shape_allocated (heap w') y = true) /\
  ((exists t, emits (Explicit.Shape_draw x c) w t) /\
   (exists t, emits (Explicit.Shape_drawBoundary x) w t) /\
   (exists t, emits (Explicit.Shape_fillColor x) w t)).
Proof.
  intros w x c. destruct linked_heap_never_panics as (_ & Hc & Hd). split.
  - apply (Hc ACircle w). vm_compute. reflexivity.
  - apply (Hd x c w); vm_compute; reflexivity.
Defined.

Lemma lookup_insert_here {T} (l : list T) (a : nat) (v x : T) :
  l !! a = Some v -> <[a := x]> l !! a = Some x.
Proof.
  revert a. induction l as [|y l IH]; intros [|a] Hl; try discriminate.
  - reflexivity.
  - simpl in *. exact (IH a Hl).
Qed.

Ltac follow_chain H :=
  repeat match type of H with
         | context [match ?p with nil => _ | ref _ => _ end] =>
             destruct p; simpl in H; try discriminate H
         | context [match ?l !! ?a with Some _ => _ | None => _ end] =>
             let E := fresh "E" in
             destruct (l !! a) as [[?]|] eqn:E; simpl in H;
             try discriminate H
         end.

Ltac replay_chain :=
  repeat match goal with
         | E : ?l !! ?a = Some _ |- context [?l !! ?a] => rewrite E; simpl
         | E : ?l !! ?a = Some _ |- context [<[?a := _]> ?l !! ?a] =>
             rewrite (lookup_insert_here _ _ _ _ E); simpl
         end.

(** X5: in the embedded-interface program an assignment to the promoted
    [Shape] field of an instance is read back by the selector, and it
    redirects [draw]: where the field can be read at all, [x.Shape = s]
    returns without output, [x.Shape] then yields [s], and [x.draw()] is
    the template run on [s] (followed by the extension token for a
    [BlueCircleWithText]). *)
Theorem set_Shape_then_read :
  (forall (sb : ptr) (s s0 : Embedded.Shape) (w : world Embedded.Heap),
      Embedded.ShapeBase_Shape sb w = (Returned s0, w) ->
      exists w',
        yields (Embedded.ShapeBase_set_Shape sb s) w tt w' /\
        Embedded.ShapeBase_Shape sb w' = (Returned s, w') /\
        Embedded.ShapeBase_draw sb w' =
          Embedded.ShapeAbstract_draw
            {| Embedded.ShapeAbstract_Shape := s |} w') /\
  (forall (c : ptr) (s s0 : Embedded.Shape) (w : world Embedded.Heap),
      Embedded.Circle_Shape c w = (Returned s0, w) ->
      exists w',
        yields (Embedded.Circle_set_Shape c s) w tt w' /\
        Embedded.Circle_Shape c w' = (Returned s, w') /\
        Embedded.Circle_draw c w' =
          Embedded.ShapeAbstract_draw
            {| Embedded.ShapeAbstract_Shape := s |} w') /\
  (forall (rr : ptr) (s s0 : Embedded.Shape) (w : world Embedded.Heap),
      Embedded.RedRectangle_Shape rr w = (Returned s0, w) ->
      exists w',
        yields (Embedded.RedRectangle_set_Shape rr s) w tt w' /\
        Embedded.RedRectangle_Shape rr w' = (Returned s, w') /\
        Embedded.RedRectangle_draw rr w' =
          Embedded.ShapeAbstract_draw
            {| Embedded.ShapeAbstract_Shape := s |} w') /\
  (forall (bct : ptr) (s s0 : Embedded.Shape) (w : world Embedded.Heap),
      Embedded.BlueCircleWithText_Shape bct w = (Returned s0, w) ->
      exists w',
        yields (Embedded.BlueCircleWithText_set_Shape bct s) w tt w' /\
        Embedded.BlueCircleWithText_Shape bct w' = (Returned s, w') /\
        Embedded.BlueCircleWithText_draw bct w' =
          (Embedded.ShapeAbstract_draw
             {| Embedded.ShapeAbstract_Shape := s |} ;;
           Print "-TextAnnotation") w').
Proof.
  repeat apply conj.
  all: intros p s s0 [[sas sbs cs rrs bcts] out0] Hr.
  all: EmbeddedFacts.expand; simpl in *; follow_chain Hr.
  all: eexists; unfold Embedded.ShapeAbstract_draw, bind.
  all: repeat split.
  all: solve [simpl; replay_chain; reflexivity].
Qed.

Lemma set_Shape_then_read_witness :
  let w := snd (Embedded.NewBlueCircleWithText (World Embedded.empty "")) in
  let s := Embedded.Shape_of_RedRectangle nil in
  (exists w',
      yields (Embedded.ShapeBase_set_Shape (ref 0) s) w tt w' /\
      Embedded.ShapeBase_Shape (ref 0) w' = (Returned s, w') /\
      Embedded.ShapeBase_draw (ref 0) w' =
        Embedded.ShapeAbstract_draw
          {| Embedded.ShapeAbstract_Shape := s |} w') /\
  (exists w',
      yields (Embedded.BlueCircleWithText_set_Shape (ref 0) s) w tt w' /\
      Embedded.BlueCircleWithText_Shape (ref 0) w' = (Returned s, w') /\
      Embedded.BlueCircleWithText_draw (ref 0) w' =
        (Embedded.ShapeAbstract_draw
           {| Embedded.ShapeAbstract_Shape := s |} ;;
         Print "-TextAnnotation") w').
Proof.
  intros w s. destruct set_Shape_then_read as (Hb & _ & _ & Ht). split.
  - apply (Hb (ref 0) s (Embedded.Shape_of_BlueCircleWithText (ref 0)) w).
    reflexivity.
  - apply (Ht (ref 0) s (Embedded.Shape_of_BlueCircleWithText (ref 0)) w).
    reflexivity.
Defined.

(** X6: in the embedded-interface program the parts embedded in an
    instance share its [Shape] field, so drawn on their own they draw as
    the outer instance does: the [ShapeBase] inside a [Circle] draws the
    circle's line, and the [Circle] and the [ShapeBase] inside a
    [BlueCircleWithText] draw "Circle-Blue".  In the explicit-argument
    program an embedded part, drawn with itself as the argument, draws its
    own line. *)
Theorem embedded_parts_follow_outer_instance :
  (forall w : world Embedded.Heap,
      exists c w' sb,
        yields Embedded.NewCircle w c w' /\
        Embedded.embedded_ShapeBase c w' = (Returned sb, w') /\
        emits (Embedded.Shape_draw (Embedded.Shape_of_ShapeBase sb)) w'
              (line ACircle)) /\
  (forall w : world Embedded.Heap,
      exists rr w' sb,
        yields Embedded.NewRedRectangle w rr w' /\
        Embedded.embedded_ShapeBase_of_RedRectangle rr w' =
          (Returned sb, w') /\
        emits (Embedded.Shape_draw (Embedded.Shape_of_ShapeBase sb)) w'
              (line ARedRectangle)) /\
  (forall w : world Embedded.Heap,
      exists p w' c sb,
        yields Embedded.NewBlueCircleWithText w p w' /\
        Embedded.embedded_Circle p w' = (Returned c, w') /\
        Embedded.embedded_ShapeBase c w' = (Returned sb, w') /\
        emits (Embedded.Shape_draw (Embedded.Shape_of_Circle c)) w'
              "Circle-Blue" /\
        emits (Embedded.Shape_draw (Embedded.Shape_of_ShapeBase sb)) w'
              "Circle-Blue") /\
  (forall w : world Explicit.Heap,
      exists c w' sb,
        let x := Explicit.Shape_of_ShapeBase sb in
        yields Explicit.NewCircle w c w' /\
        Explicit.embedded_ShapeBase c w' = (Returned sb, w') /\
        emits (Explicit.Shape_draw x x) w' (line Base)) /\
  (forall w : world Explicit.Heap,
      exists p w' c,
        let x := Explicit.Shape_of_Circle c in
        yields Explicit.NewBlueCircleWithText w p w' /\
        Explicit.embedded_Circle p w' = (Returned c, w') /\
        emits (Explicit.Shape_draw x x) w' (line ACircle)).
Proof.
  repeat apply conj.
  - intros [[sas sbs cs rrs bcts] out0].
    eexists _, _, _; EmbeddedFacts.expand; run.
    repeat split. all: solve [run; reflexivity].
  - intros [[sas sbs cs rrs bcts] out0].
    eexists _, _, _; EmbeddedFacts.expand; run.
    repeat split. all: solve [run; reflexivity].
  - intros [[sas sbs cs rrs bcts] out0].
    eexists _, _, _, _; EmbeddedFacts.expand; run.
    repeat split. all: solve [run; reflexivity].
  - intros [[sbs cs rrs bcts] out0].
    eexists _, _, _; ExplicitFacts.expand; run.
    repeat split. all: solve [run; reflexivity].
  - intros [[sbs cs rrs bcts] out0].
    eexists _, _, _; ExplicitFacts.expand; run.
    repeat split. all: solve [run; reflexivity].
Qed.

(** The template of the explicit-argument program writes the argument's
    tokens, whatever the receiver is. *)
Lemma template_emits_arg (receiver : ptr) (s : Explicit.Shape)
      (w : world Explicit.Heap) (b f : string) :
  emits (Explicit.Shape_drawBoundary s) w b ->
  emits (Explicit.Shape_fillColor s) w f ->
  emits (Explicit.ShapeBase_draw receiver s) w (b +:+ "-" +:+ f).
Proof.
  intros Hb Hf. unfold Explicit.ShapeBase_draw.
  apply emits_seq; [exact Hb|]. apply emits_seq; [apply emits_Print|].
  apply (emits_frame _ w);
    [apply ExplicitFacts.Shape_fillColor_appends_arg | exact Hf].
Qed.

(** On a constructed instance [draw] is the template on the nil receiver,
    followed for a [BlueCircleWithText] by the extension token. *)
Lemma draw_of_constructed_arg (v : variant) (w : world Explicit.Heap) :
  exists p w',
    yields (Explicit.constructor v) w p w' /\
    forall (arg : Explicit.Shape) (out : string),
      let w0 := World (heap w') out in
      Explicit.Shape_draw (Explicit.as_Shape v p) arg w0 =
        match v with
        | ABlueCircleWithText =>
            (Explicit.ShapeBase_draw nil arg ;; Print "-TextAnnotation") w0
        | _ => Explicit.ShapeBase_draw nil arg w0
        end.
Proof.
  destruct w as [[sbs cs rrs bcts] out0].
  destruct v; eexists _, _;
    cbv beta delta [yields Explicit.constructor Explicit.as_Shape
                    Explicit.new_ShapeBase Explicit.NewCircle
                    Explicit.NewRedRectangle Explicit.NewBlueCircleWithText
                    Explicit.set_ShapeBases Explicit.set_Circles
                    Explicit.set_RedRectangles
                    Explicit.set_BlueCircleWithTexts
                    Explicit.Shape_draw Explicit.Circle_draw
                    Explicit.RedRectangle_draw
                    Explicit.BlueCircleWithText_draw bind new load ret];
    run.
  all: split; [split; reflexivity|]; intros arg out; run; reflexivity.
Qed.

(** X7: in the explicit-argument program the tokens come from the
    argument and not from the receiver.  For a constructed receiver and any
    argument whose [drawBoundary] and [fillColor] write [b] and [f],
    [receiver.draw(arg)] writes [b], "-", [f], followed by the extension
    token when the receiver is a [BlueCircleWithText]; with the nil
    interface value as argument it panics before it writes anything. *)
Theorem argument_decides_tokens :
  forall (v : variant) (w : world Explicit.Heap),
    exists p w',
      let x := Explicit.as_Shape v p in
      yields (Explicit.constructor v) w p w' /\
      (forall (arg : Explicit.Shape) (b f : string),
          emits (Explicit.Shape_drawBoundary arg) w' b ->
          emits (Explicit.Shape_fillColor arg) w' f ->
          emits (Explicit.Shape_draw x arg) w'
                (b +:+ "-" +:+ f +:+ extension v)) /\
      faults (Explicit.Shape_draw x Explicit.Shape_nil) w'.
Proof.
  intros v w.
  destruct (draw_of_constructed_arg v w) as (p & [h' o'] & Hy & Hd).
  exists p, (World h' o'). cbv zeta. split; [exact Hy|]. split.
  - intros arg b f Hb Hf.
    pose proof (template_emits_arg nil arg _ b f Hb Hf) as Ht.
    specialize (Hd arg o'). cbv zeta in Hd. simpl in Hd.
    unfold emits. rewrite Hd.
    destruct v; cbn [extension]; try (rewrite append_nil_r; exact Ht).
    replace (b +:+ "-" +:+ f +:+ "-TextAnnotation")
      with ((b +:+ "-" +:+ f) +:+ "-TextAnnotation")
      by now rewrite !append_assoc.
    apply emits_seq; [exact Ht | apply emits_Print].
  - specialize (Hd Explicit.Shape_nil o'). cbv zeta in Hd. simpl in Hd.
    unfold faults. rewrite Hd. destruct v; reflexivity.
Qed.

Lemma argument_decides_tokens_witness :
  let w := snd (Explicit.NewRedRectangle (World Explicit.empty "")) in
  let w' := snd (Explicit.NewCircle w) in
  emits (Explicit.Shape_draw (Explicit.Shape_of_Circle (ref 0))
                             (Explicit.Shape_of_RedRectangle (ref 0)))
        w' ("Rectangle" +:+ "-" +:+ "Red" +:+ "").
Proof.
  intros w w'.
  destruct (argument_decides_tokens ACircle w) as (p & w1 & [Hy _] & Hd & _).
  vm_compute in Hy. injection Hy as <- <-.
  apply (Hd (Explicit.Shape_of_RedRectangle (ref 0)));
    vm_compute; reflexivity.
Defined.

(** X8: a nil pointer under an interface value.  A method panics on a nil
    receiver exactly when it has to read the receiver's embedded field,
    that is, when it is promoted or calls a promoted method; a method
    declared on the type itself prints.  So in the explicit-argument
    program everything works on a nil [*ShapeBase], while in both programs
    a nil [*Circle] prints its boundary and panics in [fillColor] and
    [draw], a nil [*RedRectangle] panics in [draw] only, and a nil
    [*BlueCircleWithText] prints its fill and panics in [drawBoundary] and
    [draw]. *)
Theorem nil_receivers :
  (forall w : world Explicit.Heap,
      let b := Explicit.Shape_of_ShapeBase nil in
      let c := Explicit.Shape_of_Circle nil in
      let r := Explicit.Shape_of_RedRectangle nil in
      let t := Explicit.Shape_of_BlueCircleWithText nil in
      emits (Explicit.Shape_draw b b) w (line Base) /\
      emits (Explicit.Shape_drawBoundary c) w "Circle" /\
      faults (Explicit.Shape_fillColor c) w /\
      faults (Explicit.Shape_draw c c) w /\
      emits (Explicit.Shape_drawBoundary r) w "Rectangle" /\
      emits (Explicit.Shape_fillColor r) w "Red" /\
      faults (Explicit.Shape_draw r r) w /\
      emits (Explicit.Shape_fillColor t) w "Blue" /\
      faults (Explicit.Shape_drawBoundary t) w /\
      faults (Explicit.Shape_draw t t) w) /\
  (forall w : world Embedded.Heap,
      let b := Embedded.Shape_of_ShapeBase nil in
      let c := Embedded.Shape_of_Circle nil in
      let r := Embedded.Shape_of_RedRectangle nil in
      let t := Embedded.Shape_of_BlueCircleWithText nil in
      emits (Embedded.Shape_drawBoundary b) w "draw nothing" /\
      emits (Embedded.Shape_fillColor b) w "fill nothing" /\
      faults (Embedded.Shape_draw b) w /\
      emits (Embedded.Shape_drawBoundary c) w "Circle" /\
      faults (Embedded.Shape_fillColor c) w /\
      faults (Embedded.Shape_draw c) w /\
      emits (Embedded.Shape_drawBoundary r) w "Rectangle" /\
      emits (Embedded.Shape_fillColor r) w "Red" /\
      faults (Embedded.Shape_draw r) w /\
      emits (Embedded.Shape_fillColor t) w "Blue" /\
      faults (Embedded.Shape_drawBoundary t) w /\
      faults (Embedded.Shape_draw t) w).
Proof.
  split; intros [h out]; cbv zeta; repeat split.
  ExplicitFacts.expand. run. reflexivity.
Qed.

Lemma panics_frame {H A} (m : exec H A) (w : world H) (e : fault) :
  appends m -> m w = (Panicked e, w) ->
  forall out, m (World (heap w) out) = (Panicked e, World (heap w) out).
Proof.
  intros Am Hw out. destruct (Am (heap w)) as (r & t & Hr).
  pose proof (Hr (stdout w)) as H0. rewrite world_eta, Hw in H0.
  destruct w as [h o]. simpl in *. injection H0 as <- Ht.
  symmetry in Ht. apply append_nil_inv in Ht. subst t.
  rewrite Hr. now rewrite append_nil_r.
Qed.

(** X9: the template is not all or nothing.  When [drawBoundary] through
    the interface value writes [b] and [fillColor] through it panics, the
    template panics with the same fault after it has written [b] and "-":
    that text stays on the standard output. *)
Theorem fill_panic_leaves_partial_output :
  (forall (receiver : ptr) (s : Explicit.Shape) (w : world Explicit.Heap)
          (b : string) (e : fault),
      emits (Explicit.Shape_drawBoundary s) w b ->
      Explicit.Shape_fillColor s w = (Panicked e, w) ->
      Explicit.ShapeBase_draw receiver s w =
        (Panicked e, World (heap w) (stdout w +:+ b +:+ "-"))) /\
  (forall (sa : Embedded.ShapeAbstract) (w : world Embedded.Heap)
          (b : string) (e : fault),
      let s := Embedded.ShapeAbstract_Shape sa in
      emits (Embedded.Shape_drawBoundary s) w b ->
      Embedded.Shape_fillColor s w = (Panicked e, w) ->
      Embedded.ShapeAbstract_draw sa w =
        (Panicked e, World (heap w) (stdout w +:+ b +:+ "-"))).
Proof.
  split.
  - intros receiver s w b e Hb Hf.
    unfold Explicit.ShapeBase_draw, bind. rewrite Hb. simpl.
    rewrite (panics_frame _ w e
               (ExplicitFacts.Shape_fillColor_appends_arg s) Hf).
    now rewrite append_assoc.
  - intros sa w b e s Hb Hf.
    unfold Embedded.ShapeAbstract_draw, bind. fold s. rewrite Hb. simpl.
    rewrite (panics_frame _ w e
               (EmbeddedFacts.Shape_fillColor_appends s) Hf).
    now rewrite append_assoc.
Qed.

Lemma fill_panic_leaves_partial_output_witness :
  let cA := Explicit.Shape_of_Circle nil in
  let cI := Embedded.Shape_of_Circle nil in
  Explicit.ShapeBase_draw nil cA (World Explicit.empty "") =
    (Panicked NilDereference, World Explicit.empty ("" +:+ "Circle" +:+ "-"))
  /\
  Embedded.ShapeAbstract_draw {| Embedded.ShapeAbstract_Shape := cI |}
                              (World Embedded.empty "") =
    (Panicked NilDereference, World Embedded.empty ("" +:+ "Circle" +:+ "-")).
Proof.
  intros cA cI. split.
  - apply (proj1 fill_panic_leaves_partial_output); reflexivity.
  - apply (proj2 fill_panic_leaves_partial_output); reflexivity.
Defined.

(** X10: the class hierarchy of [TemplateMethods.java] draws what the two
    Go programs draw.  For every class, the template [Shape.draw] run on
    an object writes the boundary and fill tokens of the object's class,
    also when it is reached by [super.draw()]; a virtual call of [draw]
    writes the variant's line after whatever was written before.  The
    driver writes the four lines, each followed by the line separator, and
    with the newline as separator its output is that of both Go
    drivers. *)
Theorem java_agrees_with_go :
  (forall (v : variant) (out : string),
      emits (Java.Shape_draw (Java.new v)) (World tt out)
            (boundary v +:+ "-" +:+ fill v) /\
      emits (Java.draw (Java.new v)) (World tt out) (line v)) /\
  (forall sep : string,
      output (Java.main sep) (World tt "") =
        Some (line Base +:+ sep +:+ line ACircle +:+ sep +:+
              line ARedRectangle +:+ sep +:+
              line ABlueCircleWithText +:+ sep)) /\
  output (Java.main newline) (World tt "") =
    output Explicit.main (World Explicit.empty "") /\
  output (Java.main newline) (World tt "") =
    output Embedded.main (World Embedded.empty "").
Proof.
  repeat apply conj.
  - intros v out. split; destruct v; unfold emits; simpl;
      cbv beta delta [Java.draw Java.Shape_draw Java.BlueCircleWithText_draw
                      Java.drawBoundary Java.fillColor
                      Java.Shape_drawBoundary Java.Shape_fillColor
                      Java.Circle_drawBoundary Java.RedRectangle_drawBoundary
                      Java.RedRectangle_fillColor
                      Java.BlueCircleWithText_fillColor bind Print];
      run; reflexivity.
  - intros sep. unfold output.
    cbv beta delta [Java.main for_range Java.draw Java.Shape_draw
                    Java.BlueCircleWithText_draw
                    Java.drawBoundary Java.fillColor
                    Java.Shape_drawBoundary Java.Shape_fillColor
                    Java.Circle_drawBoundary Java.RedRectangle_drawBoundary
                    Java.RedRectangle_fillColor
                    Java.BlueCircleWithText_fillColor bind Print ret line];
      run. reflexivity.
  - vm_compute. reflexivity.
  - vm_compute. reflexivity.
Qed.

(** X11: in the embedded-interface program [draw] on an instance depends
    on the instance only through its [Shape] field.  Wherever the field
    can be read and holds [s], [x.draw()] is the template run on [s],
    followed by the extension token when [x] is a [BlueCircleWithText]:
    instances whose fields hold the same value draw the same tokens. *)
Theorem draw_reads_only_the_field :
  forall (x s : Embedded.Shape) (w : world Embedded.Heap),
    Embedded.self_reference x w = (Returned s, w) ->
    let sa := {| Embedded.ShapeAbstract_Shape := s |} in
    Embedded.Shape_draw x w =
      match x with
      | Embedded.Shape_of_BlueCircleWithText _ =>
          (Embedded.ShapeAbstract_draw sa ;; Print "-TextAnnotation") w
      | _ => Embedded.ShapeAbstract_draw sa w
      end.
Proof.
  intros x s [[sas sbs cs rrs bcts] out0] Hr.
  destruct x as [|p|p|p|p]; [discriminate Hr| | | |].
  all: EmbeddedFacts.expand; simpl in *; follow_chain Hr.
  all: injection Hr as ->.
  all: unfold Embedded.ShapeAbstract_draw, bind; simpl; replay_chain.
  all: reflexivity.
Qed.

Lemma draw_reads_only_the_field_witness :
  let w := snd (Embedded.NewBlueCircleWithText (World Embedded.empty "")) in
  let s := Embedded.Shape_of_BlueCircleWithText (ref 0) in
  Embedded.Shape_draw (Embedded.Shape_of_Circle (ref 0)) w =
    Embedded.ShapeAbstract_draw {| Embedded.ShapeAbstract_Shape := s |} w.
Proof.
  intros w s.
  apply (draw_reads_only_the_field (Embedded.Shape_of_Circle (ref 0)) s w).
  reflexivity.
Defined.
